(** * Request canonicalisation and signing of the MWS client (src/amazon/api.ts)

    A shallow embedding of the [Amazon] module: the [Parameter] variants and
    their [serialize], the [Request] builder, the canonical string-to-sign,
    the signature encoding, the response classification and the requests of
    the three endpoint methods, followed by the properties stated for them.

    Conventions of the model.
    - A TypeScript [string] is a [string] of Rocq: a sequence of characters
      whose codes range over 0..255.  A character stands for the code unit of
      the same number, so the source's comparisons of strings are comparisons
      of these sequences, and [encodeURIComponent] is modelled on this range.
    - A plain object used as [Dictionary<string>] is the table of its own
      properties in creation order; enumeration follows the host's order
      (array-index keys first, then the others as created).
    - The libraries the source calls ([crypto], [moment], [xml2js],
      [request]) are not part of the repository and enter as variables. *)

From Stdlib Require Import String Ascii List ZArith NArith QArith Lia Bool.
From Stdlib Require Import Permutation Sorted DecimalString OrdersEx.
From Stdlib Require Import DecimalPos DecimalN.
From Stdlib.Strings Require Import Byte.
Import ListNotations.
Local Open Scope string_scope.

(** ** Host primitives used by the source *)

Module JS.

(** [s.charAt(i)]: the one-character string at [i], the empty string out of
    range. *)
Definition charAt (s : string) (i : nat) : string :=
  match String.get i s with
  | Some c => String c ""
  | None => ""
  end.

(** [s.indexOf(needle)]: the first position of [needle] in [s], -1 if none. *)
Definition indexOf (s needle : string) : Z :=
  match String.index 0 needle s with
  | Some n => Z.of_nat n
  | None => (-1)%Z
  end.

(** [String(n)] for a non-negative integer: its decimal digits. *)
Definition Number_toString (n : N) : string :=
  NilZero.string_of_uint (N.to_uint n).

(** [a.join(sep)] on an array of strings. *)
Definition join (sep : string) (a : list string) : string :=
  String.concat sep a.

(** [s.replace(/c/g, r)] for a one-character pattern [c] and a replacement
    [r] without substitution patterns. *)
Fixpoint replace_all (c : ascii) (r : string) (s : string) : string :=
  match s with
  | EmptyString => EmptyString
  | String x rest =>
      if Ascii.eqb x c then r ++ replace_all c r rest
      else String x (replace_all c r rest)
  end.

(** Sorting an array with a comparison; the result of a sort by a total
    order does not depend on the algorithm, insertion sort stands for it. *)
Fixpoint insert_by {A} (le : A -> A -> bool) (x : A) (l : list A) : list A :=
  match l with
  | [] => [x]
  | y :: r => if le x y then x :: y :: r else y :: insert_by le x r
  end.

Fixpoint sort_by {A} (le : A -> A -> bool) (l : list A) : list A :=
  match l with
  | [] => []
  | x :: r => insert_by le x (sort_by le r)
  end.

(** [a.sort()] without a comparator on an array of strings: ascending in the
    order of [<] on strings, which compares code unit by code unit. *)
Definition Array_sort (a : list string) : list string :=
  sort_by String.leb a.

(** 32-bit integer conversions and the bit operators built on them. *)
Definition ToUint32 (z : Z) : Z := (z mod 2 ^ 32)%Z.

Definition ToInt32 (z : Z) : Z :=
  let m := (z mod 2 ^ 32)%Z in
  if (2 ^ 31 <=? m)%Z then (m - 2 ^ 32)%Z else m.

Definition shl (a b : Z) : Z :=
  ToInt32 (Z.shiftl (ToInt32 a) (Z.land (ToUint32 b) 31)).

Definition ushr (a b : Z) : Z :=
  Z.shiftr (ToUint32 a) (Z.land (ToUint32 b) 31).

Definition bor (a b : Z) : Z := ToInt32 (Z.lor (ToInt32 a) (ToInt32 b)).

Definition band (a b : Z) : Z := ToInt32 (Z.land (ToInt32 a) (ToInt32 b)).

(** [encodeURIComponent].  The characters left alone are the letters, the
    digits and [- _ . ! ~ * ' ( )]; every other character is replaced by the
    escapes [%XX] (upper-case hexadecimal) of the bytes of its UTF-8
    encoding: one byte below 128, two bytes from 128 to 255. *)
Definition uri_unreserved (c : ascii) : bool :=
  let n := N_of_ascii c in
  ((65 <=? n) && (n <=? 90) || (97 <=? n) && (n <=? 122)
   || (48 <=? n) && (n <=? 57))%N
  || existsb (Ascii.eqb c) (list_ascii_of_string "-_.!~*'()").

Definition hex_upper (n : N) : ascii :=
  match String.get (N.to_nat n) "0123456789ABCDEF" with
  | Some c => c
  | None => "0"%char
  end.

Definition escape_byte (b : N) : string :=
  String "%" (String (hex_upper (b / 16)) (String (hex_upper (b mod 16)) "")).

Definition utf8_bytes (n : N) : list N :=
  if (n <? 128)%N then [n] else [192 + n / 64; 128 + n mod 64]%N.

Definition encode_char (c : ascii) : string :=
  if uri_unreserved c then String c ""
  else String.concat "" (map escape_byte (utf8_bytes (N_of_ascii c))).

Fixpoint encodeURIComponent (s : string) : string :=
  match s with
  | EmptyString => EmptyString
  | String c rest => encode_char c ++ encodeURIComponent rest
  end.

End JS.

(** ** Plain objects as dictionaries *)

Module Dict.

(** [Dictionary<T>]: the own properties in creation order. *)
Definition Dictionary (T : Type) : Type := list (string * T).

Definition empty {T} : Dictionary T := [].

(** [d[k]] read: the own property, [None] for [undefined]. *)
Fixpoint get {T} (d : Dictionary T) (k : string) : option T :=
  match d with
  | [] => None
  | (k', v) :: r => if String.eqb k' k then Some v else get r k
  end.

(** Writing an own property: an existing key keeps its place, a new one is
    created last. *)
Fixpoint put {T} (d : Dictionary T) (k : string) (v : T) : Dictionary T :=
  match d with
  | [] => [(k, v)]
  | (k', v') :: r =>
      if String.eqb k' k then (k', v) :: r else (k', v') :: put r k v
  end.

(** [d[k] = v] for a primitive [v].  The key [__proto__] names the inherited
    accessor of [Object.prototype], whose setter ignores a value that is
    neither an object nor null: no own property is created. *)
Definition set {T} (d : Dictionary T) (k : string) (v : T) : Dictionary T :=
  if String.eqb k "__proto__" then d else put d k v.

(** An array index is the canonical decimal form of an integer below
    2^32 - 1. *)
Definition index_value (k : string) : N :=
  match NilZero.uint_of_string k with
  | Some u => N.of_uint u
  | None => 0%N
  end.

Definition is_array_index (k : string) : bool :=
  match NilZero.uint_of_string k with
  | Some u =>
      String.eqb (JS.Number_toString (N.of_uint u)) k
      && (N.of_uint u <? 4294967295)%N
  | None => false
  end.

(** [Object.keys(d)], also the order of [_.keys], [_.each] and [for-in] on a
    plain object: array indices ascending, then the other keys as created. *)
Definition keys {T} (d : Dictionary T) : list string :=
  let ks := map fst d in
  JS.sort_by (fun a b => (index_value a <=? index_value b)%N)
             (filter is_array_index ks)
  ++ filter (fun k => negb (is_array_index k)) ks.

(** [_.extend(dst, src)]: every enumerable key of [src] is assigned on
    [dst]. *)
Definition extend {T} (dst src : Dictionary T) : Dictionary T :=
  fold_left
    (fun o k => match get src k with Some v => set o k v | None => o end)
    (keys src) dst.

End Dict.

Import Dict.

(** ** The [Amazon] module *)

Module Amazon.

Record Credentials := {
  sellerId : string;
  awsAccountId : string;
  secretKey : string;
  host : string
}.

(** Values of dynamic type: what the HTTP client and the XML parser hand to
    the callbacks, and what the callbacks hand on. *)
#[warnings="-register-all"]
Inductive JsValue :=
| JUndefined
| JNull
| JString (s : string)
| JArray (items : list JsValue)
| JObject (props : Dictionary JsValue).

Inductive Completion (A : Type) :=
| Normal (a : A)
| TypeError.
Arguments Normal {A} a.
Arguments TypeError {A}.

Definition bind {A B} (c : Completion A) (f : A -> Completion B)
  : Completion B :=
  match c with
  | Normal a => f a
  | TypeError => TypeError
  end.

Notation "x <- c ;; k" := (bind c (fun x => k))
  (at level 61, c at next level, right associativity).

(** [if (v)]: undefined, null and the empty string are false. *)
Definition truthy (v : JsValue) : bool :=
  match v with
  | JUndefined | JNull => false
  | JString s => negb (String.eqb s "")
  | JArray _ | JObject _ => true
  end.

(** [_.has(v, k)]: [v] is neither null nor undefined and has [k] as an own
    property.  The keys the source asks for are no index and not [length],
    so strings and arrays have none of them. *)
Definition has (v : JsValue) (k : string) : bool :=
  match v with
  | JObject props => match get props k with Some _ => true | None => false end
  | _ => false
  end.

(** [v[k]] for a key that names no inherited property: reading a property
    of null or undefined throws, a missing property reads as undefined. *)
Definition member (v : JsValue) (k : string) : Completion JsValue :=
  match v with
  | JUndefined | JNull => TypeError
  | JString _ | JArray _ => Normal JUndefined
  | JObject props =>
      match get props k with
      | Some x => Normal x
      | None => Normal JUndefined
      end
  end.

(** One invocation of a [ResultCallback]: the arguments [err] and
    [result]. *)
Definition CallbackCall : Type := (JsValue * JsValue)%type.

Definition tab : string :=
  "ABCDEFGHIJKLMNOPQRSTUVWXYZabcdefghijklmnopqrstuvwxyz0123456789+/".
Definition hex : string := "0123456789abcdef".
Definition b64pad : string := "=".

(** [Request.urlEncode] *)
Definition urlEncode (input : string) : string :=
  let input := JS.encodeURIComponent input in
  let input := JS.replace_all "*" "%2A" input in
  let input := JS.replace_all "(" "%28" input in
  let input := JS.replace_all ")" "%29" input in
  let input := JS.replace_all "'" "%27" input in
  let input := JS.replace_all "!" "%21" input in
  input.

(** The test [(i / 2) * 8 + j * 6 > (input.length / 2) * 8] of
    [hexStrToBase64], on the rationals: halving an integer and multiplying
    by 8 are exact in the source's number type. *)
Definition past_input (i j len : nat) : bool :=
  negb (Qle_bool
          (inject_Z (Z.of_nat i) / 2 * 8 + inject_Z (Z.of_nat j) * 6)
          (inject_Z (Z.of_nat len) / 2 * 8))%Q.

Definition hex_digit (input : string) (i : nat) : Z :=
  JS.indexOf hex (JS.charAt input i).

(** The body of the outer loop of [hexStrToBase64] at index [i]. *)
Definition hex_step (input : string) (i : nat) (output : string) : string :=
  let len := String.length input in
  let c1 := (JS.shl (hex_digit input i) 4 + hex_digit input (i + 1))%Z in
  let c2 :=
    ((if (i + 2 <? len)%nat then JS.shl (hex_digit input (i + 2)) 4 else 0)
     + (if (i + 3 <? len)%nat then hex_digit input (i + 3) else 0))%Z in
  let c3 :=
    ((if (i + 4 <? len)%nat then JS.shl (hex_digit input (i + 4)) 4 else 0)
     + (if (i + 5 <? len)%nat then hex_digit input (i + 5) else 0))%Z in
  let triplet := JS.bor (JS.bor (JS.shl c1 16) (JS.shl c2 8)) c3 in
  fold_left
    (fun output j =>
       if past_input i j len then output ++ b64pad
       else output ++
            JS.charAt tab
              (Z.to_nat (JS.band (JS.ushr triplet (6 * (3 - Z.of_nat j))) 63)))
    [0; 1; 2; 3]%nat output.

(** The outer loop [for (i = 0; i < len; i += 6)]; [fuel] bounds the number
    of iterations, the length of the input is enough. *)
Fixpoint hex_loop (fuel : nat) (input : string) (i : nat) (output : string)
  : string :=
  match fuel with
  | O => output
  | S fuel' =>
      if (i <? String.length input)%nat
      then hex_loop fuel' input (i + 6) (hex_step input i output)
      else output
  end.

(** [Request.hexStrToBase64] *)
Definition hexStrToBase64 (input : string) : string :=
  hex_loop (String.length input) input 0 "".

(** [digest('hex')]: two lower-case hexadecimal digits per byte. *)
Definition hex_lower (n : N) : ascii :=
  match String.get (N.to_nat n) hex with
  | Some c => c
  | None => "0"%char
  end.

Fixpoint digest_hex (bytes : list byte) : string :=
  match bytes with
  | [] => ""
  | b :: rest =>
      String (hex_lower (Byte.to_N b / 16))
        (String (hex_lower (Byte.to_N b mod 16)) (digest_hex rest))
  end.

Section WithLibraries.

(** [moment.Moment] and its [toISOString]. *)
Context {Moment : Type}.
Variable toISOString : Moment -> string.

(** [crypto.createHmac('sha256', key).update(data).digest()]: the raw
    digest. *)
Variable hmac_sha256 : string -> string -> list byte.

(** [xmlParse(body, options, callback)]: the arguments [(err, result)] it
    passes to its callback. *)
Variable xmlParse : JsValue -> JsValue * JsValue.

(** The interface [Parameter] with its three classes ([Parameter] itself is
    a reserved word here). *)
Inductive Param :=
| StringParameter (key value : string)
| TimestampParameter (key : string) (value : Moment)
| ListParameter (key : string) (values : list string).

(** The constructor of [ListParameter]: [values || []]. *)
Definition ListParameter_new (key : string) (values : option (list string))
  : Param :=
  ListParameter key (match values with Some vs => vs | None => [] end).

Definition push (p : Param) (value : string) : Param :=
  match p with
  | ListParameter key values => ListParameter key (app values [value])
  | _ => p
  end.

(** [serialize] of the three classes. *)
Definition serialize (p : Param) : Dictionary string :=
  match p with
  | StringParameter key value => set empty key value
  | TimestampParameter key value => set empty key (toISOString value)
  | ListParameter key values =>
      snd (fold_left
             (fun '(count, result) value =>
                let count := (count + 1)%N in
                (count, set result (key ++ "." ++ JS.Number_toString count)
                            value))
             values (0%N, empty))
  end.

Record Request := {
  endpoint : string;
  credentials : Credentials;
  parameters : list Param
}.

Definition addParam (r : Request) (param : Param) : Request :=
  {| endpoint := endpoint r;
     credentials := credentials r;
     parameters := app (parameters r) [param] |}.

(** The constructor of [Request]; [now] is the value of [moment()]. *)
Definition Request_new (endpoint : string) (credentials : Credentials)
    (now : Moment) : Request :=
  let r := {| endpoint := endpoint; credentials := credentials;
              parameters := [] |} in
  let r := addParam r (StringParameter "AWSAccessKeyId"
                                       (awsAccountId credentials)) in
  let r := addParam r (StringParameter "SignatureMethod" "HmacSHA256") in
  let r := addParam r (StringParameter "SignatureVersion" "2") in
  addParam r (TimestampParameter "Timestamp" now).

(** The object [input] that [getStringToSign] and [getQueryString] build
    from the parameters. *)
Definition canonical (params : list Param) : Dictionary string :=
  fold_left (fun input param => extend input (serialize param)) params empty.

(** Reading [input[k]] into a string context. *)
Definition read (input : Dictionary string) (k : string) : string :=
  match get input k with
  | Some v => v
  | None => "undefined"
  end.

(** The loop of [getStringToSign] over [keys] from index [i]. *)
Fixpoint sign_loop (input : Dictionary string) (keys : list string) (i : nat)
    (str : string) : string :=
  match keys with
  | [] => str
  | k :: rest =>
      let str := if negb (i =? 0)%nat then str ++ "&" else str in
      sign_loop input rest (S i) (str ++ k ++ "=" ++ urlEncode (read input k))
  end.

(** [Request.getStringToSign] *)
Definition getStringToSign (r : Request) (endpoint : string) : string :=
  let input := canonical (parameters r) in
  let keys := JS.Array_sort (keys input) in
  let str := sign_loop input keys 0 "" in
  JS.join (String "010" "") ["POST"; host (credentials r); endpoint; str].

(** [Request.getSignature] *)
Definition getSignature (r : Request) : string :=
  let strToSign := getStringToSign r (endpoint r) in
  let hmac := digest_hex (hmac_sha256 (secretKey (credentials r)) strToSign) in
  let b64hmac := hexStrToBase64 hmac in
  let j := (String.length b64hmac mod 4)%nat in
  Nat.iter j (fun b64hmac => b64hmac ++ "=") b64hmac.

(** [Request.getQueryString] *)
Definition getQueryString (r : Request) : string :=
  let input := canonical (parameters r) in
  let queryArray :=
    fold_left
      (fun queryArray key =>
         app queryArray [key ++ "=" ++ urlEncode (read input key)])
      (keys input) [] in
  JS.join "&" queryArray.

(** What [send] hands to [request.post]. *)
Record Post := {
  url : string;
  headers : list (string * string)
}.

(** The callback [send] gives to [xmlParse]; the result lists the
    invocations of the caller's callback. *)
Definition on_parsed (err result : JsValue)
  : Completion (list CallbackCall) :=
  if truthy err then
    Normal [(JObject [("origin", JString "XMLParsing"); ("message", err)],
             JUndefined)]
  else if has result "ErrorResponse" then
    e1 <- member result "ErrorResponse" ;;
    e2 <- member e1 "Error" ;;
    message <- member e2 "Message" ;;
    m1 <- member result "ErrorResponse" ;;
    metadata <- member m1 "Error" ;;
    Normal [(JObject [("origin", JString "MWS"); ("message", message);
                      ("metadata", metadata)],
             JUndefined)]
  else Normal [(JNull, result)].

(** The callback [send] gives to [request.post]. *)
Definition on_response (err httpResponse body : JsValue)
  : Completion (list CallbackCall) :=
  if truthy err then
    Normal [(JObject [("origin", JString "PostRequest"); ("message", err);
                      ("metadata", httpResponse)],
             JUndefined)]
  else
    let '(perr, result) := xmlParse body in
    on_parsed perr result.

(** [Request.send] up to the call of [request.post]: the request after the
    signature has been added, and the POST issued. *)
Definition send (r : Request) : Request * Post :=
  let signature := getSignature r in
  let r := addParam r (StringParameter "Signature" signature) in
  let userAgent := "pptest/1.0 (Language=Javascript)" in
  let contentType := "text/xml" in
  let queryString := getQueryString r in
  (r, {| url := "https://" ++ host (credentials r) ++ endpoint r ++ "?"
                ++ queryString;
         headers := [("x-amazon-user-agent", userAgent);
                     ("Content-Type", contentType)] |}).

(** The options of the three endpoint methods.  An optional field is
    [None] when the options object has no such property. *)
Record ListOrdersRequest := {
  CreatedAfter : Moment;
  CreatedBefore : option string;
  LastUpdatedAfter : option string;
  LastUpdatedBefore : option string;
  MarketplaceId_Id : list string;
  OrderStatus_Status : option (list string);
  FulfillmentChannel_Channel : option (list string);
  SellerOrderId : option string;
  BuyerEmail : option string;
  PaymentMethod_Method : option (list string);
  TFMShipmentStatus_Status : option (list string);
  MaxResultsPerPage : option N
}.

Record ListOrderItemsRequest := {
  AmazonOrderId : string
}.

Record RequestReportRequest := {
  ReportType : string;
  StartDate : option Moment;
  EndDate : option Moment;
  ReportOptions : option string;
  MarketplaceIdList : option (list string)
}.

(** The class [MWS], reduced to the credentials the endpoint methods read.
    Its constructor, which fills them from the environment of the process,
    is left out: a variable that is not set gives no string. *)
Record MWS := {
  mws_credentials : Credentials
}.

Definition Orders_endpoint : string := "/Orders/2013-09-01".
Definition Orders_version : string := "2013-09-01".
Definition Reports_endpoint : string := "/".
Definition Reports_version : string := "2009-01-01".

(** The request [Orders.listOrders] builds before it sends it. *)
Definition listOrders_request (mws : MWS) (options : ListOrdersRequest)
    (now : Moment) : Request :=
  let request := Request_new Orders_endpoint (mws_credentials mws) now in
  let request := addParam request (StringParameter "Action" "ListOrders") in
  let request :=
    addParam request
      (StringParameter "SellerId" (sellerId (mws_credentials mws))) in
  let request :=
    addParam request
      (TimestampParameter "CreatedAfter" (CreatedAfter options)) in
  let request :=
    addParam request
      (ListParameter "MarketplaceId.Id" (MarketplaceId_Id options)) in
  addParam request (StringParameter "Version" Orders_version).

(** The request [Orders.listOrderItems] builds. *)
Definition listOrderItems_request (mws : MWS)
    (options : ListOrderItemsRequest) (now : Moment) : Request :=
  let request := Request_new Orders_endpoint (mws_credentials mws) now in
  let request :=
    addParam request (StringParameter "Action" "ListOrderItems") in
  let request :=
    addParam request
      (StringParameter "SellerId" (sellerId (mws_credentials mws))) in
  let request := addParam request (StringParameter "Version" Orders_version) in
  addParam request (StringParameter "AmazonOrderId" (AmazonOrderId options)).

(** The request [Reports.requestReport] builds. *)
Definition requestReport_request (mws : MWS)
    (options : RequestReportRequest) (now : Moment) : Request :=
  let request := Request_new Reports_endpoint (mws_credentials mws) now in
  let request :=
    addParam request (StringParameter "Action" "RequestReport") in
  let request :=
    addParam request
      (StringParameter "Merchant" (sellerId (mws_credentials mws))) in
  let request :=
    addParam request (StringParameter "Version" Reports_version) in
  let request :=
    addParam request (StringParameter "ReportType" (ReportType options)) in
  let request :=
    match StartDate options with
    | Some d => addParam request (TimestampParameter "StartDate" d)
    | None => request
    end in
  let request :=
    match EndDate options with
    | Some d => addParam request (TimestampParameter "EndDate" d)
    | None => request
    end in
  let request :=
    match ReportOptions options with
    | Some o => addParam request (StringParameter "ReportOptions" o)
    | None => request
    end in
  match MarketplaceIdList options with
  | Some ids => addParam request (ListParameter "MarketplaceIdList.Id" ids)
  | None => request
  end.

(** The callback the three endpoint methods give to [send]: an error is
    handed on as it is, a result is wrapped by the constructor of the typed
    result ([construct], from the module of types, which may throw). *)
Definition endpoint_callback (construct : JsValue -> Completion JsValue)
    (err result : JsValue) : Completion (list CallbackCall) :=
  if truthy err then Normal [(err, JUndefined)]
  else
    typed <- construct result ;;
    Normal [(JNull, typed)].

(** The invocations of the caller's callback when the invocations [calls]
    of the callback given to [send] are those of the core. *)
Fixpoint deliver_all (construct : JsValue -> Completion JsValue)
    (calls : list CallbackCall) : Completion (list CallbackCall) :=
  match calls with
  | [] => Normal []
  | c :: rest =>
      out <- endpoint_callback construct (fst c) (snd c) ;;
      more <- deliver_all construct rest ;;
      Normal (app out more)
  end.

Definition deliver (construct : JsValue -> Completion JsValue)
    (calls : Completion (list CallbackCall))
  : Completion (list CallbackCall) :=
  cs <- calls ;;
  deliver_all construct cs.

End WithLibraries.

Arguments Param : clear implicits.
Arguments Request : clear implicits.
Arguments ListOrdersRequest : clear implicits.
Arguments RequestReportRequest : clear implicits.

End Amazon.

Import Amazon.

(** ** Notions the statements are written in *)

Module Spec.

(** Occurrence of a character in a string. *)
Fixpoint occurs (c : ascii) (s : string) : bool :=
  match s with
  | EmptyString => false
  | String x r => Ascii.eqb x c || occurs c r
  end.

(** The own keys of a dictionary are pairwise distinct. *)
Definition wf {T} (d : Dictionary T) : Prop := NoDup (map fst d).

(** Lexicographic order on strings, character code by character code: a
    proper prefix comes first, otherwise the first difference decides. *)
Inductive lex_lt : string -> string -> Prop :=
| lex_lt_nil c s : lex_lt "" (String c s)
| lex_lt_head c1 c2 s1 s2 :
    (N_of_ascii c1 < N_of_ascii c2)%N -> lex_lt (String c1 s1) (String c2 s2)
| lex_lt_tail c s1 s2 : lex_lt s1 s2 -> lex_lt (String c s1) (String c s2).

Definition lex_le (a b : string) : Prop := a = b \/ lex_lt a b.

(** The standard base64 encoding of a sequence of bytes (RFC 4648): each
    group of three bytes is read as a 24-bit number and written as four
    characters of the alphabet, six bits each; a last group of one or two
    bytes is filled with zero bits, written as two or three characters and
    completed with [=] to four. *)
Definition base64_alphabet : string :=
  "ABCDEFGHIJKLMNOPQRSTUVWXYZabcdefghijklmnopqrstuvwxyz0123456789+/".

Definition sextet (n : N) : ascii :=
  match String.get (N.to_nat n) base64_alphabet with
  | Some c => c
  | None => "="%char
  end.

Fixpoint base64_encode (bytes : list byte) : string :=
  match bytes with
  | [] => ""
  | [a] =>
      let n := (Byte.to_N a * 65536)%N in
      String (sextet (n / 262144)) (String (sextet (n / 4096 mod 64)) "==")
  | [a; b] =>
      let n := (Byte.to_N a * 65536 + Byte.to_N b * 256)%N in
      String (sextet (n / 262144)) (String (sextet (n / 4096 mod 64))
        (String (sextet (n / 64 mod 64)) "="))
  | a :: b :: c :: rest =>
      let n := (Byte.to_N a * 65536 + Byte.to_N b * 256 + Byte.to_N c)%N in
      String (sextet (n / 262144)) (String (sextet (n / 4096 mod 64))
        (String (sextet (n / 64 mod 64)) (String (sextet (n mod 64))
          (base64_encode rest))))
  end.

(** Percent-encoding as section 4.5 of the specification has it: the
    URI-component encoding of each character, except that the five
    characters [* ( ) ' !] are written as their escapes. *)
Definition forced (c : ascii) : option string :=
  if Ascii.eqb c "*" then Some "%2A"
  else if Ascii.eqb c "(" then Some "%28"
  else if Ascii.eqb c ")" then Some "%29"
  else if Ascii.eqb c "'" then Some "%27"
  else if Ascii.eqb c "!" then Some "%21"
  else None.

Definition percent_encode_char (c : ascii) : string :=
  match forced c with
  | Some e => e
  | None => JS.encode_char c
  end.

Fixpoint percent_encode (s : string) : string :=
  match s with
  | EmptyString => EmptyString
  | String c rest => percent_encode_char c ++ percent_encode rest
  end.

(** Reading back the first character of a percent-encoded string. *)
Definition hex_value (c : ascii) : option N :=
  let n := N_of_ascii c in
  if ((48 <=? n) && (n <=? 57))%N then Some (n - 48)%N
  else if ((65 <=? n) && (n <=? 70))%N then Some (n - 55)%N
  else None.

Definition escape_value (h l : ascii) : option N :=
  match hex_value h, hex_value l with
  | Some a, Some b => Some (16 * a + b)%N
  | _, _ => None
  end.

Definition decode_first (s : string) : option (ascii * string) :=
  match s with
  | EmptyString => None
  | String "%" (String h (String l rest)) =>
      match escape_value h l with
      | Some b =>
          if (b <? 128)%N then Some (ascii_of_N b, rest)
          else
            match rest with
            | String "%" (String h2 (String l2 rest2)) =>
                match escape_value h2 l2 with
                | Some b2 =>
                    Some (ascii_of_N ((b - 192) * 64 + (b2 - 128)), rest2)
                | None => None
                end
            | _ => None
            end
      | None => None
      end
  | String c rest => Some (c, rest)
  end.

(** A parsed body that, when it has an [ErrorResponse] property, has under
    it an [Error] that is neither null nor undefined. *)
Definition carries_error (result : JsValue) : Prop :=
  forall props report,
    result = JObject props -> get props "ErrorResponse" = Some report ->
    exists error,
      member report "Error" = Normal error
      /\ error <> JUndefined /\ error <> JNull.

(** The five replacements of [urlEncode], on their own. *)
Definition force (s : string) : string :=
  JS.replace_all "!" "%21"
    (JS.replace_all "'" "%27"
       (JS.replace_all ")" "%29"
          (JS.replace_all "(" "%28" (JS.replace_all "*" "%2A" s)))).

(** The character one round of [hexStrToBase64] writes at place [j]. *)
Definition quad (i len : nat) (triplet : Z) (j : nat) : string :=
  if past_input i j len then b64pad
  else JS.charAt tab
         (Z.to_nat (JS.band (JS.ushr triplet (6 * (3 - Z.of_nat j))) 63)).

Section WithMoment.

Context {Moment : Type}.
Variable toISOString : Moment -> string.

(** The value the canonical mapping holds for a key: that of the last
    parameter whose serialization has the key. *)
Fixpoint lookup (params : list (Param Moment)) (k : string) : option string :=
  match params with
  | [] => None
  | p :: rest =>
      match lookup rest k with
      | Some v => Some v
      | None => get (serialize toISOString p) k
      end
  end.

(** All the keys the parameters serialize, in order. *)
Definition all_keys (params : list (Param Moment)) : list string :=
  flat_map (fun p => map fst (serialize toISOString p)) params.

(** Any two parameters that serialize the same key give it the same
    value, as is the case when no key is serialized twice. *)
Definition agree (params : list (Param Moment)) : Prop :=
  forall p q k v w,
    In p params -> In q params ->
    get (serialize toISOString p) k = Some v ->
    get (serialize toISOString q) k = Some w -> v = w.

End WithMoment.

(** The key a list parameter gives its [i]-th value. *)
Definition list_key (K : string) (i : N) : string :=
  K ++ "." ++ JS.Number_toString i.

(** One [key=value] pair of a canonical mapping. *)
Definition pair_of (input : Dictionary string) (k : string) : string :=
  k ++ "=" ++ urlEncode (read input k).

(** One [key=value] pair, as both the string-to-sign and the query string
    write it. *)
Definition pair_text (kv : string * string) : string :=
  fst kv ++ "=" ++ urlEncode (snd kv).

(** Every character of a string passes a test. *)
Fixpoint all_chars (f : ascii -> bool) (s : string) : bool :=
  match s with
  | EmptyString => true
  | String c r => f c && all_chars f r
  end.

(** The characters the URL-encoding leaves as they are: letters, digits and
    [- _ . ~]. *)
Definition kept (c : ascii) : bool :=
  let n := N_of_ascii c in
  ((65 <=? n) && (n <=? 90) || (97 <=? n) && (n <=? 122)
   || (48 <=? n) && (n <=? 57))%N
  || existsb (Ascii.eqb c) (list_ascii_of_string "-_.~").

(** The characters a URL-encoded string is made of: those and [%]. *)
Definition url_safe (c : ascii) : bool :=
  let n := N_of_ascii c in
  ((65 <=? n) && (n <=? 90) || (97 <=? n) && (n <=? 122)
   || (48 <=? n) && (n <=? 57))%N
  || existsb (Ascii.eqb c) (list_ascii_of_string "-_.~%").

(** Reading a percent-encoded string back, one character at a time; [fuel]
    bounds the number of characters read. *)
Fixpoint percent_decode (fuel : nat) (s : string) : option string :=
  match decode_first s with
  | None => if String.eqb s "" then Some "" else None
  | Some (c, rest) =>
      match fuel with
      | O => None
      | S f => option_map (String c) (percent_decode f rest)
      end
  end.

(** A character of the base64 alphabet, or the padding character. *)
Definition base64_char (c : ascii) : bool :=
  existsb (Ascii.eqb c) (list_ascii_of_string (base64_alphabet ++ "=")).

(** The three origins the core gives its error objects. *)
Definition origins : list string := ["PostRequest"; "XMLParsing"; "MWS"].

(** An error object of the core: an object whose first property is
    [origin], with one of the three origins. *)
Definition core_error (e : JsValue) : Prop :=
  exists origin fields,
    e = JObject (("origin", JString origin) :: fields) /\ In origin origins.

End Spec.

Import Spec.

(** ** Concrete data for the examples *)

Module Sample.

(** A moment given by its ISO-8601 form. *)
Definition iso (t : string) : string := t.

(** A stand-in for the keyed digest: 32 bytes taken from the key and the
    data. *)
Definition mac (key data : string) : list byte :=
  firstn 32 (app (list_byte_of_string (key ++ ":" ++ data)) (repeat x00 32)).

Definition creds : Credentials :=
  {| sellerId := "S1"; awsAccountId := "AKID"; secretKey := "SECRET";
     host := "example.test" |}.

(** The request of the end-to-end scenario of the specification. *)
Definition orders : Request string :=
  addParam
    (addParam
       (addParam
          (Request_new "/Orders/2013-09-01" creds "2016-01-01T00:00:00.000Z")
          (StringParameter "Action" "ListOrders"))
       (StringParameter "SellerId" "S1"))
    (ListParameter "MarketplaceId.Id" ["M1"]).

Definition request_of (params : list (Param string)) : Request string :=
  {| endpoint := "/"; credentials := creds; parameters := params |}.

End Sample.

(** * Properties *)

(** ** Strings *)

Section StringFacts.

Lemma append_nil_r (s : string) : s ++ "" = s.
Proof. induction s as [|c s IH]; simpl; congruence. Qed.

Lemma append_assoc (a b c : string) : (a ++ b) ++ c = a ++ b ++ c.
Proof. induction a as [|x a IH]; simpl; congruence. Qed.

Lemma length_append (a b : string) :
  String.length (a ++ b) = (String.length a + String.length b)%nat.
Proof. induction a as [|x a IH]; simpl; congruence. Qed.

Lemma append_inv_head (a b c : string) : a ++ b = a ++ c -> b = c.
Proof.
  induction a as [|x a IH]; simpl; intros H; [assumption|].
  injection H. exact IH.
Qed.

Lemma list_ascii_of_append (a b : string) :
  list_ascii_of_string (a ++ b)
  = (list_ascii_of_string a ++ list_ascii_of_string b)%list.
Proof. induction a as [|x a IH]; simpl; congruence. Qed.

Lemma list_ascii_inj (a b : string) :
  list_ascii_of_string a = list_ascii_of_string b -> a = b.
Proof.
  intros H. rewrite <- (string_of_list_ascii_of_string a),
    <- (string_of_list_ascii_of_string b). now rewrite H.
Qed.

Lemma append_inv_tail (a b c : string) : a ++ c = b ++ c -> a = b.
Proof.
  intros H. apply list_ascii_inj. apply (f_equal list_ascii_of_string) in H.
  rewrite !list_ascii_of_append in H. now apply app_inv_tail in H.
Qed.

Lemma concat_cons_nonempty sep x y (l : list string) :
  String.concat sep (x :: y :: l) = x ++ sep ++ String.concat sep (y :: l).
Proof. reflexivity. Qed.

Lemma occurs_append c a b : occurs c (a ++ b) = occurs c a || occurs c b.
Proof.
  induction a as [|x a IH]; simpl; [reflexivity|].
  now rewrite IH, orb_assoc.
Qed.

End StringFacts.

(** ** Dictionaries *)

Section DictFacts.

Context {T : Type}.
Implicit Types (d : Dictionary T) (k : string) (v : T).

Lemma get_put d k v k' :
  get (put d k v) k' = if String.eqb k k' then Some v else get d k'.
Proof.
  induction d as [|[k0 v0] d IH]; simpl; [reflexivity|].
  destruct (String.eqb_spec k0 k) as [->|Hk]; simpl.
  - destruct (String.eqb_spec k k'); reflexivity.
  - destruct (String.eqb_spec k0 k') as [->|Hk'].
    + destruct (String.eqb_spec k k'); [congruence|reflexivity].
    + exact IH.
Qed.

Lemma get_set d k v k' :
  get (set d k v) k' =
  if String.eqb k "__proto__" then get d k'
  else if String.eqb k k' then Some v else get d k'.
Proof.
  unfold set. destruct (String.eqb k "__proto__"); [reflexivity|].
  apply get_put.
Qed.

Lemma get_In d k : get d k <> None <-> In k (map fst d).
Proof.
  induction d as [|[k0 v0] d IH]; simpl.
  - split; [congruence|tauto].
  - destruct (String.eqb_spec k0 k) as [->|Hk].
    + split; [auto|congruence].
    + rewrite IH. split; [auto|intros [?|?]; [congruence|assumption]].
Qed.

Lemma get_None d k : get d k = None <-> ~ In k (map fst d).
Proof.
  rewrite <- get_In. destruct (get d k); split; try congruence.
  intros H. exfalso. apply H. congruence.
Qed.

Lemma put_fresh d k v : get d k = None -> put d k v = (d ++ [(k, v)])%list.
Proof.
  induction d as [|[k0 v0] d IH]; simpl; [reflexivity|].
  destruct (String.eqb_spec k0 k); [congruence|].
  intros H. now rewrite IH.
Qed.

Lemma set_fresh d k v :
  String.eqb k "__proto__" = false -> get d k = None ->
  set d k v = (d ++ [(k, v)])%list.
Proof. unfold set. intros ->. apply put_fresh. Qed.

Lemma put_keys_perm d k v :
  get d k = None -> Permutation (map fst (put d k v)) (k :: map fst d).
Proof.
  intros H. rewrite (put_fresh _ _ _ H), map_app. simpl.
  symmetry. apply Permutation_cons_append.
Qed.

Lemma put_keys_same d k v :
  get d k <> None -> map fst (put d k v) = map fst d.
Proof.
  induction d as [|[k0 v0] d IH]; simpl; [congruence|].
  destruct (String.eqb_spec k0 k) as [->|Hk]; simpl; [reflexivity|].
  intros H. now rewrite IH.
Qed.

Lemma wf_put d k v : wf d -> wf (put d k v).
Proof.
  unfold wf. intros H. destruct (get d k) eqn:E.
  - rewrite put_keys_same; [assumption|congruence].
  - rewrite (put_fresh _ _ _ E), map_app. simpl.
    apply NoDup_app; [assumption|repeat constructor; simpl; tauto|].
    intros x Hx [<-|[]]. now apply get_None in E.
Qed.

Lemma wf_set d k v : wf d -> wf (set d k v).
Proof. unfold set. destruct (String.eqb k "__proto__"); auto using wf_put. Qed.

Lemma wf_empty : wf (@empty T).
Proof. constructor. Qed.

End DictFacts.

(** ** The order of strings and sorting *)

Section OrderFacts.

Lemma compare_OT (a b : string) : String.compare a b = String_as_OT.compare a b.
Proof.
  revert b. induction a as [|x a IH]; intros [|y b]; reflexivity.
Qed.

Lemma lex_lt_compare (a b : string) : lex_lt a b <-> String.compare a b = Lt.
Proof.
  split.
  - induction 1 as [c s|c1 c2 s1 s2 H|c s1 s2 H IH]; simpl.
    + reflexivity.
    + unfold Ascii.compare. apply N.compare_lt_iff in H. now rewrite H.
    + unfold Ascii.compare. now rewrite N.compare_refl.
  - revert b. induction a as [|x a IH]; intros [|y b]; simpl; try discriminate.
    + constructor.
    + destruct (Ascii.compare x y) eqn:E; try discriminate.
      * apply Ascii.compare_eq_iff in E. subst y. intros H.
        apply lex_lt_tail. now apply IH.
      * intros _. apply lex_lt_head. now apply N.compare_lt_iff.
Qed.

Lemma lex_lt_irrefl (a : string) : ~ lex_lt a a.
Proof.
  rewrite lex_lt_compare, compare_OT.
  exact (StrictOrder_Irreflexive (R := String_as_OT.lt) a).
Qed.

Lemma lex_lt_trans (a b c : string) : lex_lt a b -> lex_lt b c -> lex_lt a c.
Proof.
  rewrite !lex_lt_compare, !compare_OT.
  exact (StrictOrder_Transitive (R := String_as_OT.lt) a b c).
Qed.

Lemma leb_lex (a b : string) : String.leb a b = true <-> a = b \/ lex_lt a b.
Proof.
  rewrite lex_lt_compare. unfold String.leb.
  destruct (String.compare a b) eqn:E.
  - apply String.compare_eq_iff in E. tauto.
  - tauto.
  - split; [discriminate|]. intros [->|H]; [|discriminate].
    exfalso. apply (lex_lt_irrefl b). apply lex_lt_compare.
    rewrite String.compare_antisym, E. reflexivity.
Qed.

Lemma leb_false_lex (a b : string) : String.leb a b = false -> lex_lt b a.
Proof.
  unfold String.leb. rewrite lex_lt_compare, (String.compare_antisym b a).
  destruct (String.compare a b); simpl; congruence.
Qed.

Lemma insert_by_perm {A} (le : A -> A -> bool) x l :
  Permutation (JS.insert_by le x l) (x :: l).
Proof.
  induction l as [|y l IH]; simpl; [reflexivity|].
  destruct (le x y); [reflexivity|].
  rewrite IH. apply perm_swap.
Qed.

Lemma sort_by_perm {A} (le : A -> A -> bool) l :
  Permutation (JS.sort_by le l) l.
Proof.
  induction l as [|x l IH]; simpl; [reflexivity|].
  now rewrite insert_by_perm, IH.
Qed.

Lemma lex_le_trans a b c : lex_le a b -> lex_le b c -> lex_le a c.
Proof.
  intros [->|H1] [->|H2]; unfold lex_le; eauto using lex_lt_trans.
Qed.

Lemma insert_sorted x l :
  StronglySorted lex_le l ->
  StronglySorted lex_le (JS.insert_by String.leb x l).
Proof.
  induction 1 as [|y l Hs IH Hy]; simpl.
  - repeat constructor.
  - destruct (String.leb x y) eqn:E.
    + apply leb_lex in E. constructor; [now constructor|].
      constructor; [exact E|].
      eapply Forall_impl; [|exact Hy]. intros z. now apply lex_le_trans.
    + apply leb_false_lex in E. constructor; [exact IH|].
      eapply Permutation_Forall; [symmetry; apply insert_by_perm|].
      constructor; [now right|exact Hy].
Qed.

Lemma Array_sort_le l : StronglySorted lex_le (JS.Array_sort l).
Proof.
  induction l as [|x l IH]; simpl; [constructor|]. now apply insert_sorted.
Qed.

Lemma sorted_strict l :
  StronglySorted lex_le l -> NoDup l -> StronglySorted lex_lt l.
Proof.
  induction 1 as [|x l Hs IH Hx]; intros Hn; [constructor|].
  inversion Hn as [|? ? Hnx Hnl]; subst. constructor; [auto|].
  rewrite Forall_forall in *. intros y Hy.
  destruct (Hx y Hy) as [->|H]; [contradiction|exact H].
Qed.

(** The array a sort returns: the keys in strictly ascending order. *)
Lemma Array_sort_lt l : NoDup l -> StronglySorted lex_lt (JS.Array_sort l).
Proof.
  intros H. apply sorted_strict; [apply Array_sort_le|].
  eapply Permutation_NoDup; [|exact H]. symmetry. apply sort_by_perm.
Qed.

Lemma Array_sort_In l x : In x (JS.Array_sort l) <-> In x l.
Proof.
  split; apply Permutation_in; [|symmetry]; apply sort_by_perm.
Qed.

(** A strictly ascending list is determined by its elements. *)
Lemma sorted_unique l1 l2 :
  StronglySorted lex_lt l1 -> StronglySorted lex_lt l2 ->
  (forall x, In x l1 <-> In x l2) -> l1 = l2.
Proof.
  intros H1. revert l2.
  induction H1 as [|x r1 Hs1 IH Hx]; intros l2 H2 Hin.
  - destruct l2 as [|y r2]; [reflexivity|].
    destruct (proj2 (Hin y) (or_introl eq_refl)).
  - destruct H2 as [|y r2 Hs2 Hy].
    + destruct (proj1 (Hin x) (or_introl eq_refl)).
    + rewrite Forall_forall in Hx, Hy.
      assert (x = y) as <-.
      { destruct (proj1 (Hin x) (or_introl eq_refl)) as [E|E]; [auto|].
        destruct (proj2 (Hin y) (or_introl eq_refl)) as [F|F]; [auto|].
        exfalso. apply (lex_lt_irrefl x).
        eapply lex_lt_trans; [apply Hx, F|apply Hy, E]. }
      f_equal. apply IH; [exact Hs2|].
      intros z. split; intros Hz.
      * destruct (proj1 (Hin z) (or_intror Hz)) as [E|E]; [|exact E].
        subst z. exfalso. apply (lex_lt_irrefl x). now apply Hx.
      * destruct (proj2 (Hin z) (or_intror Hz)) as [E|E]; [|exact E].
        subst z. exfalso. apply (lex_lt_irrefl x). now apply Hy.
Qed.

Lemma Array_sort_ext l1 l2 :
  NoDup l1 -> NoDup l2 -> (forall x, In x l1 <-> In x l2) ->
  JS.Array_sort l1 = JS.Array_sort l2.
Proof.
  intros N1 N2 H. apply sorted_unique; auto using Array_sort_lt.
  intros x. now rewrite !Array_sort_In.
Qed.

End OrderFacts.

(** ** Enumeration and [_.extend] *)

Section KeysFacts.

Context {T : Type}.
Implicit Types (d dst src : Dictionary T) (k : string).

Lemma filter_split_perm {A} (f : A -> bool) (l : list A) :
  Permutation (filter f l ++ filter (fun x => negb (f x)) l) l.
Proof.
  induction l as [|a l IH]; simpl; [reflexivity|].
  destruct (f a); simpl.
  - now constructor.
  - rewrite <- Permutation_middle. now constructor.
Qed.

Lemma keys_perm d : Permutation (keys d) (map fst d).
Proof.
  unfold keys. rewrite sort_by_perm. apply filter_split_perm.
Qed.

Lemma keys_In d k : In k (keys d) <-> get d k <> None.
Proof.
  rewrite get_In. split; apply Permutation_in; [|symmetry]; apply keys_perm.
Qed.

Lemma keys_NoDup d : wf d -> NoDup (keys d).
Proof.
  intros H. eapply Permutation_NoDup; [|exact H]. symmetry. apply keys_perm.
Qed.

Lemma get_assign src dst k0 k :
  get (match get src k0 with Some v => set dst k0 v | None => dst end) k =
  if String.eqb k "__proto__" then get dst k
  else if String.eqb k0 k
       then match get src k with Some v => Some v | None => get dst k end
       else get dst k.
Proof.
  destruct (get src k0) as [v|] eqn:E.
  - rewrite get_set.
    destruct (String.eqb_spec k0 k) as [->|Hk].
    + rewrite E. destruct (String.eqb k "__proto__"); reflexivity.
    + destruct (String.eqb_spec k0 "__proto__"), (String.eqb k "__proto__");
        reflexivity.
  - destruct (String.eqb_spec k0 k) as [->|Hk].
    + rewrite E. destruct (String.eqb k "__proto__"); reflexivity.
    + destruct (String.eqb k "__proto__"); reflexivity.
Qed.

Lemma get_fold_assign src l dst k :
  get (fold_left
         (fun o k => match get src k with Some v => set o k v | None => o end)
         l dst) k =
  if String.eqb k "__proto__" then get dst k
  else if existsb (String.eqb k) l
       then match get src k with Some v => Some v | None => get dst k end
       else get dst k.
Proof.
  revert dst. induction l as [|k0 l IH]; intros dst; simpl.
  - destruct (String.eqb k "__proto__"); reflexivity.
  - rewrite IH, get_assign. rewrite (String.eqb_sym k k0).
    destruct (String.eqb k "__proto__"); [reflexivity|].
    destruct (String.eqb k0 k), (existsb (String.eqb k) l), (get src k);
      reflexivity.
Qed.

Lemma existsb_eqb_In k (l : list string) :
  existsb (String.eqb k) l = true <-> In k l.
Proof.
  rewrite existsb_exists. split.
  - intros [x [Hx E]]. apply String.eqb_eq in E. now subst.
  - intros H. exists k. split; [exact H|apply String.eqb_refl].
Qed.

(** What [_.extend] leaves in the destination. *)
Lemma get_extend dst src k :
  get (extend dst src) k =
  if String.eqb k "__proto__" then get dst k
  else match get src k with Some v => Some v | None => get dst k end.
Proof.
  unfold extend. rewrite get_fold_assign.
  destruct (String.eqb k "__proto__"); [reflexivity|].
  destruct (existsb (String.eqb k) (keys src)) eqn:E; [reflexivity|].
  destruct (get src k) eqn:G; [|reflexivity].
  assert (In k (keys src)) as H by (apply keys_In; congruence).
  apply existsb_eqb_In in H. congruence.
Qed.

Lemma extend_ind (P : Dictionary T -> Prop) dst src :
  (forall d k v, P d -> P (set d k v)) -> P dst -> P (extend dst src).
Proof.
  intros Hset. unfold extend. generalize (keys src) as l. intros l.
  revert dst. induction l as [|k l IH]; intros dst H; simpl; [exact H|].
  apply IH. destruct (get src k); auto.
Qed.

Lemma set_no_proto d k (v : T) :
  get d "__proto__" = None -> get (set d k v) "__proto__" = None.
Proof.
  intros H. rewrite get_set.
  destruct (String.eqb_spec k "__proto__") as [->|Hk]; [exact H|].
  destruct (String.eqb_spec k "__proto__"); [contradiction|exact H].
Qed.

End KeysFacts.

(** ** Serialization and the canonical mapping *)

Section CanonicalFacts.

Context {Moment : Type}.
Variable toISOString : Moment -> string.

Local Abbreviation Param := (Param Moment).
Local Abbreviation serialize := (serialize toISOString).
Local Abbreviation canonical := (canonical toISOString).
Local Abbreviation lookup := (lookup toISOString).

Lemma serialize_ind (P : Dictionary string -> Prop) (p : Param) :
  (forall d k v, P d -> P (set d k v)) -> P empty -> P (serialize p).
Proof.
  intros Hset H0. destruct p as [key value|key value|key values]; simpl; auto.
  generalize 0%N as n. revert H0. generalize (@empty string) as d.
  induction values as [|v vs IH]; intros d Hd n; simpl; [exact Hd|].
  apply IH. now apply Hset.
Qed.

Lemma serialize_wf p : wf (serialize p).
Proof. apply serialize_ind; [apply @wf_set|apply wf_empty]. Qed.

Lemma serialize_no_proto p : get (serialize p) "__proto__" = None.
Proof. apply serialize_ind; [apply @set_no_proto|reflexivity]. Qed.

Lemma get_serialize_string key value k :
  get (serialize (StringParameter key value)) k =
  if String.eqb key "__proto__" then None
  else if String.eqb key k then Some value else None.
Proof. cbn [Amazon.serialize]. now rewrite get_set. Qed.

Lemma canonical_ind (P : Dictionary string -> Prop) (ps : list Param) :
  (forall d k v, P d -> P (set d k v)) -> P empty -> P (canonical ps).
Proof.
  intros Hset. unfold canonical. generalize (@empty string) as d.
  induction ps as [|p ps IH]; intros d Hd; simpl; [exact Hd|].
  apply IH. now apply extend_ind.
Qed.

Lemma canonical_wf ps : wf (canonical ps).
Proof. apply canonical_ind; [apply @wf_set|apply wf_empty]. Qed.

Lemma get_extend_serialize dst p k :
  get (extend dst (serialize p)) k =
  match get (serialize p) k with Some v => Some v | None => get dst k end.
Proof.
  rewrite get_extend.
  destruct (String.eqb_spec k "__proto__") as [->|Hk]; [|reflexivity].
  now rewrite serialize_no_proto.
Qed.

Lemma get_fold_extend ps d0 k :
  get (fold_left (fun input param => extend input (serialize param)) ps d0) k =
  match lookup ps k with Some v => Some v | None => get d0 k end.
Proof.
  revert d0. induction ps as [|p ps IH]; intros d0; simpl; [reflexivity|].
  rewrite IH, get_extend_serialize.
  destruct (lookup ps k); reflexivity.
Qed.

(** The canonical mapping holds, for each key, the value written last. *)
Lemma get_canonical ps k : get (canonical ps) k = lookup ps k.
Proof.
  unfold canonical. rewrite get_fold_extend. now destruct (lookup ps k).
Qed.

Lemma canonical_keys_NoDup ps : NoDup (keys (canonical ps)).
Proof. apply keys_NoDup, canonical_wf. Qed.

Lemma canonical_keys_In ps k :
  In k (keys (canonical ps)) <-> lookup ps k <> None.
Proof. now rewrite keys_In, get_canonical. Qed.

End CanonicalFacts.

(** ** The string-to-sign and the query string *)

Section SigningFacts.

Context {Moment : Type}.
Variable toISOString : Moment -> string.

Local Abbreviation Param := (Param Moment).
Local Abbreviation Request := (Request Moment).
Local Abbreviation serialize := (serialize toISOString).
Local Abbreviation canonical := (canonical toISOString).
Local Abbreviation lookup := (lookup toISOString).
Local Abbreviation getStringToSign := (getStringToSign toISOString).
Local Abbreviation getQueryString := (getQueryString toISOString).

Lemma sign_loop_next input ks i str :
  sign_loop input ks (S i) str =
  match ks with
  | [] => str
  | _ => str ++ "&" ++ String.concat "&" (map (pair_of input) ks)
  end.
Proof.
  revert i str. induction ks as [|k ks IH]; intros i str; [reflexivity|].
  cbn [sign_loop Nat.eqb negb]. rewrite IH. unfold pair_of.
  destruct ks as [|k' ks]; cbn [map String.concat];
    rewrite !append_assoc; reflexivity.
Qed.

(** The loop of [getStringToSign] joins the pairs with [&]. *)
Lemma sign_loop_concat input ks :
  sign_loop input ks 0 "" = String.concat "&" (map (pair_of input) ks).
Proof.
  destruct ks as [|k ks]; [reflexivity|].
  cbn [sign_loop Nat.eqb negb]. rewrite sign_loop_next.
  destruct ks; reflexivity.
Qed.

Lemma query_array input ks acc :
  fold_left
    (fun queryArray key =>
       app queryArray [key ++ "=" ++ urlEncode (read input key)]) ks acc
  = app acc (map (pair_of input) ks).
Proof.
  revert acc. induction ks as [|k ks IH]; intros acc; simpl.
  - now rewrite app_nil_r.
  - rewrite IH, <- app_assoc. reflexivity.
Qed.

Lemma getQueryString_eq (r : Request) :
  getQueryString r =
  String.concat "&"
    (map (pair_of (canonical (parameters r)))
         (keys (canonical (parameters r)))).
Proof. unfold Amazon.getQueryString, JS.join. now rewrite query_array. Qed.

Lemma getStringToSign_eq (r : Request) (e : string) :
  getStringToSign r e =
  "POST" ++ String "010" "" ++ host (credentials r) ++ String "010" "" ++ e
  ++ String "010" ""
  ++ String.concat "&"
       (map (pair_of (canonical (parameters r)))
            (JS.Array_sort (keys (canonical (parameters r))))).
Proof.
  unfold Amazon.getStringToSign, JS.join. now rewrite sign_loop_concat.
Qed.

Lemma read_lookup ps k v :
  lookup ps k = Some v -> read (canonical ps) k = v.
Proof. unfold read. rewrite get_canonical. now intros ->. Qed.

(** Two parameter sequences with the same last-written values give the
    same sorted keys and the same pairs. *)
Lemma sorted_pairs_ext (ps qs : list Param) :
  (forall k, lookup ps k = lookup qs k) ->
  map (pair_of (canonical ps)) (JS.Array_sort (keys (canonical ps)))
  = map (pair_of (canonical qs)) (JS.Array_sort (keys (canonical qs))).
Proof.
  intros H.
  assert (JS.Array_sort (keys (canonical ps))
          = JS.Array_sort (keys (canonical qs))) as ->.
  { apply Array_sort_ext; auto using canonical_keys_NoDup.
    intros k. now rewrite !canonical_keys_In, H. }
  apply map_ext. intros k. unfold pair_of, read.
  now rewrite !get_canonical, H.
Qed.

End SigningFacts.

(** ** List parameters *)

Section ListFacts.

Lemma Number_toString_inj n m :
  JS.Number_toString n = JS.Number_toString m -> n = m.
Proof.
  unfold JS.Number_toString. intros H.
  assert (forall n, N.to_uint n <> Decimal.Nil) as Hnil.
  { intros [|p]; [discriminate|apply DecimalPos.Unsigned.to_uint_nonnil]. }
  apply (f_equal NilZero.uint_of_string) in H.
  rewrite !NilZero.usu in H by apply Hnil.
  injection H. apply DecimalN.Unsigned.to_uint_inj.
Qed.

Lemma list_key_inj K i j : list_key K i = list_key K j -> i = j.
Proof.
  unfold list_key. intros H. apply append_inv_head in H.
  apply append_inv_head in H. now apply Number_toString_inj.
Qed.

Lemma list_key_not_proto K i : String.eqb (list_key K i) "__proto__" = false.
Proof.
  apply String.eqb_neq. intros H. apply (f_equal (occurs ".")) in H.
  unfold list_key in H. rewrite occurs_append in H. simpl in H.
  rewrite orb_true_r in H. discriminate.
Qed.

(** The loop of [ListParameter.serialize] from a count [n] on, when the
    keys already written are numbered up to [n]. *)
Lemma list_fold K vs : forall (n : nat) (acc : Dictionary string),
  (forall k, In k (map fst acc) ->
             exists j, (j <= n)%nat /\ k = list_key K (N.of_nat j)) ->
  fold_left
    (fun '(count, result) value =>
       let count := (count + 1)%N in
       (count, set result (K ++ "." ++ JS.Number_toString count) value))
    vs (N.of_nat n, acc)
  = (N.of_nat (n + List.length vs),
     app acc (combine (map (fun i => list_key K (N.of_nat i))
                           (seq (S n) (List.length vs))) vs)).
Proof.
  induction vs as [|v vs IH]; intros n acc Hacc.
  - simpl. now rewrite Nat.add_0_r, app_nil_r.
  - cbn [fold_left List.length seq map combine].
    replace (N.of_nat n + 1)%N with (N.of_nat (S n)) by lia.
    change (K ++ "." ++ JS.Number_toString (N.of_nat (S n)))
      with (list_key K (N.of_nat (S n))).
    rewrite (set_fresh acc).
    + etransitivity; [apply IH|].
      * intros k Hk. rewrite map_app, in_app_iff in Hk. simpl in Hk.
        destruct Hk as [Hk|[<-|[]]].
        -- destruct (Hacc k Hk) as [j [Hj ->]]. exists j. split; [lia|auto].
        -- exists (S n). split; [lia|reflexivity].
      * rewrite <- app_assoc. cbn [app]. f_equal. f_equal. lia.
    + apply list_key_not_proto.
    + apply get_None. intros Hk. destruct (Hacc _ Hk) as [j [Hj E]].
      apply list_key_inj in E. lia.
Qed.

End ListFacts.

(** * The stated properties *)

Section Claims.

Context {Moment : Type}.
Variable toISOString : Moment -> string.

Local Abbreviation Request := (Request Moment).
Local Abbreviation serialize := (serialize toISOString).
Local Abbreviation canonical := (canonical toISOString).
Local Abbreviation lookup := (lookup toISOString).
Local Abbreviation getStringToSign := (getStringToSign toISOString).
Local Abbreviation getQueryString := (getQueryString toISOString).

(** C1.  The string-to-sign of a request is [POST], the host of the
    credentials, the endpoint and the joined pairs, separated by single
    newlines.  The pairs are those of the canonical mapping (each key with
    the value written last for it), joined by [&], every pair written as the
    key, [=] and the percent-encoded value; they come in strictly ascending
    lexicographic order of the keys, compared character code by character
    code.  The string depends on the parameters only through this mapping,
    whatever the order in which they were added. *)
Theorem string_to_sign_is_canonical (r : Request) :
  exists kvs : list (string * string),
    getStringToSign r (endpoint r)
    = String.concat (String "010" "")
        ["POST"; host (credentials r); endpoint r;
         String.concat "&"
           (map (fun kv => fst kv ++ "=" ++ urlEncode (snd kv)) kvs)]
    /\ StronglySorted lex_lt (map fst kvs)
    /\ (forall k v, In (k, v) kvs <-> lookup (parameters r) k = Some v)
    /\ (forall r' : Request,
          host (credentials r') = host (credentials r) ->
          endpoint r' = endpoint r ->
          (forall k, lookup (parameters r') k = lookup (parameters r) k) ->
          getStringToSign r' (endpoint r') = getStringToSign r (endpoint r)).
Proof.
  set (input := canonical (parameters r)).
  set (ks := JS.Array_sort (keys input)).
  exists (map (fun k => (k, read input k)) ks).
  assert (Hks : forall k, In k ks <-> lookup (parameters r) k <> None).
  { intros k. unfold ks. rewrite Array_sort_In. apply canonical_keys_In. }
  repeat split.
  - rewrite getStringToSign_eq. fold input. fold ks.
    rewrite map_map. reflexivity.
  - rewrite map_map, map_id. apply Array_sort_lt, canonical_keys_NoDup.
  - intros H. apply in_map_iff in H. destruct H as [k' [E Hk']].
    injection E as -> <-. apply Hks in Hk'.
    destruct (lookup (parameters r) k) as [w|] eqn:L; [|congruence].
    f_equal. symmetry. now apply read_lookup.
  - intros L. apply in_map_iff. exists k. split.
    + f_equal. now apply read_lookup.
    + apply Hks. congruence.
  - intros r' Hh He Hl. rewrite !getStringToSign_eq, Hh, He.
    now rewrite (sorted_pairs_ext toISOString _ _ Hl).
Qed.

(** C7.  A list parameter with key [K] and values [v1 .. vn] serializes to
    exactly the [n] pairs [(K.1, v1) .. (K.n, vn)], in this order, with
    pairwise distinct keys; with no value it serializes to the empty
    mapping. *)
Theorem list_parameter_serialize (K : string) (vs : list string) :
  serialize (ListParameter K vs)
  = combine (map (fun i => K ++ "." ++ JS.Number_toString (N.of_nat i))
                 (seq 1 (List.length vs))) vs
  /\ NoDup (map fst (serialize (ListParameter K vs)))
  /\ List.length (serialize (ListParameter K vs)) = List.length vs
  /\ serialize (ListParameter K []) = empty.
Proof.
  assert (E : serialize (ListParameter K vs)
              = combine (map (fun i => list_key K (N.of_nat i))
                             (seq 1 (List.length vs))) vs).
  { pose proof (list_fold K vs 0 empty) as H. cbn [N.of_nat Nat.add] in H.
    cbn [Amazon.serialize]. rewrite H; [reflexivity|]. intros k []. }
  repeat split.
  - exact E.
  - apply (serialize_wf toISOString).
  - rewrite E, length_combine, length_map, length_seq. apply Nat.min_id.
  Qed.

End Claims.

(** C9.  The URL-encoding helper turns [a*b(c)d'e!f] into
    [a%2Ab%28c%29d%27e%21f]. *)
Theorem urlEncode_literal :
  urlEncode "a*b(c)d'e!f" = "a%2Ab%28c%29d%27e%21f".
Proof. reflexivity. Qed.

(** ** From the hexadecimal digest to base64 *)

Section BitFacts.

Local Open Scope Z_scope.

Lemma ToInt32_small z : 0 <= z < 2147483648 -> JS.ToInt32 z = z.
Proof.
  intros H. unfold JS.ToInt32.
  change (2 ^ 32) with 4294967296. change (2 ^ 31) with 2147483648.
  rewrite Z.mod_small by lia.
  destruct (Z.leb_spec 2147483648 z); [lia|reflexivity].
Qed.

Lemma ToUint32_small z : 0 <= z < 4294967296 -> JS.ToUint32 z = z.
Proof. intros H. unfold JS.ToUint32. now rewrite Z.mod_small. Qed.

Lemma shift_count k : 0 <= k < 32 -> Z.land (JS.ToUint32 k) 31 = k.
Proof.
  intros Hk. rewrite ToUint32_small by lia.
  change 31 with (Z.ones 5). rewrite Z.land_ones by lia.
  apply Z.mod_small. change (2 ^ 5) with 32. lia.
Qed.

Lemma shl_small a k :
  0 <= k < 32 -> 0 <= a -> a * 2 ^ k < 2147483648 -> JS.shl a k = a * 2 ^ k.
Proof.
  intros Hk Ha H. unfold JS.shl.
  assert (0 < 2 ^ k) by (apply Z.pow_pos_nonneg; lia).
  rewrite shift_count by lia.
  rewrite (ToInt32_small a) by nia.
  rewrite Z.shiftl_mul_pow2 by lia. apply ToInt32_small. lia.
Qed.

Lemma land_shifted_low x y k :
  0 <= k -> 0 <= y < 2 ^ k -> Z.land (x * 2 ^ k) y = 0.
Proof.
  intros Hk Hy. apply Z.bits_inj'. intros n Hn.
  rewrite Z.land_spec, Z.bits_0.
  destruct (Z.lt_ge_cases n k) as [L|G].
  - now rewrite Z.mul_pow2_bits_low.
  - assert (Z.testbit y n = false) as ->; [|apply andb_false_r].
    destruct (Z.eq_dec y 0) as [->|Hy0]; [apply Z.bits_0|].
    apply Z.bits_above_log2; [lia|].
    assert (Z.log2 y < k) by (apply Z.log2_lt_pow2; lia). lia.
Qed.

Lemma lor_shifted_low x y k :
  0 <= k -> 0 <= y < 2 ^ k -> Z.lor (x * 2 ^ k) y = x * 2 ^ k + y.
Proof.
  intros Hk Hy. rewrite <- Z.add_lor_land.
  rewrite land_shifted_low by assumption. lia.
Qed.

(** The 24-bit number the source builds from three byte values. *)
Lemma triplet_value a b c :
  0 <= a < 256 -> 0 <= b < 256 -> 0 <= c < 256 ->
  JS.bor (JS.bor (JS.shl a 16) (JS.shl b 8)) c = a * 65536 + b * 256 + c.
Proof.
  intros Ha Hb Hc.
  rewrite (shl_small a 16), (shl_small b 8);
    change (2 ^ 16) with 65536; change (2 ^ 8) with 256; try lia.
  unfold JS.bor.
  rewrite (ToInt32_small (a * 65536)), (ToInt32_small (b * 256)),
    (ToInt32_small c) by lia.
  pose proof (lor_shifted_low a (b * 256) 16) as E1.
  pose proof (lor_shifted_low (a * 256 + b) c 8) as E2.
  change (2 ^ 8) with 256 in *. change (2 ^ 16) with 65536 in *.
  rewrite E1 by lia. rewrite !(ToInt32_small (a * 65536 + b * 256)) by lia.
  replace (a * 65536 + b * 256) with ((a * 256 + b) * 256) by lia.
  rewrite E2 by lia. apply ToInt32_small. lia.
Qed.

(** The six bits the source takes out of the number at shift [s]. *)
Lemma sextet_value n s :
  0 <= n < 16777216 -> 0 <= s < 32 ->
  JS.band (JS.ushr n s) 63 = (n / 2 ^ s) mod 64.
Proof.
  intros Hn Hs. unfold JS.band, JS.ushr.
  rewrite shift_count by lia. rewrite (ToUint32_small n) by lia.
  rewrite Z.shiftr_div_pow2 by lia.
  assert (0 < 2 ^ s) by (apply Z.pow_pos_nonneg; lia).
  assert (0 <= n / 2 ^ s <= n).
  { split; [apply Z.div_pos; lia|]. apply Z.div_le_upper_bound; nia. }
  rewrite (ToInt32_small (n / 2 ^ s)), (ToInt32_small 63) by lia.
  change 63 with (Z.ones 6). rewrite Z.land_ones by lia.
  change (2 ^ 6) with 64. apply ToInt32_small.
  pose proof (Z.mod_pos_bound (n / 2 ^ s) 64). lia.
Qed.

End BitFacts.


Section HexFacts.

Lemma past_input_spec (i j len : nat) :
  past_input i j len = negb (4 * i + 6 * j <=? 4 * len)%nat.
Proof.
  unfold past_input. f_equal.
  apply eq_true_iff_eq. rewrite Qle_bool_iff, Nat.leb_le.
  unfold Qle, Qdiv, Qmult, Qplus, Qinv, inject_Z. simpl. lia.
Qed.

Lemma byte_range (b : byte) : (0 <= Z.of_N (Byte.to_N b) < 256)%Z.
Proof. destruct b; vm_compute; split; congruence. Qed.

(** The two digits [digest('hex')] writes for a byte read back as its
    value. *)
Lemma byte_digits (b : byte) :
  (JS.shl (JS.indexOf hex (String (hex_lower (Byte.to_N b / 16)) "")) 4
   + JS.indexOf hex (String (hex_lower (Byte.to_N b mod 16)) ""))%Z
  = Z.of_N (Byte.to_N b).
Proof. destruct b; vm_compute; reflexivity. Qed.

Lemma tab_sextet (z : Z) (m : N) :
  z = Z.of_N m -> (m < 64)%N ->
  JS.charAt tab (Z.to_nat z) = String (sextet m) "".
Proof.
  intros -> H. replace (Z.to_nat (Z.of_N m)) with (N.to_nat m) by lia.
  unfold JS.charAt, sextet.
  change base64_alphabet with tab.
  assert (N.to_nat m < 64)%nat as Hn by lia.
  revert Hn. generalize (N.to_nat m) as i. intros i Hi.
  do 64 (destruct i as [|i]; [reflexivity|]). lia.
Qed.

Lemma get_shift pre s d :
  String.get (String.length pre + d) (pre ++ s) = String.get d s.
Proof. induction pre as [|c pre IH]; simpl; auto. Qed.

Lemma hex_digit_shift pre s d :
  hex_digit (pre ++ s) (String.length pre + d) = hex_digit s (0 + d).
Proof. unfold hex_digit, JS.charAt. now rewrite get_shift. Qed.

Lemma hex_digit_shift0 pre s :
  hex_digit (pre ++ s) (String.length pre) = hex_digit s 0.
Proof.
  rewrite <- (Nat.add_0_r (String.length pre)). apply hex_digit_shift.
Qed.

Lemma ltb_shift (n d m : nat) : (n + d <? n + m)%nat = (0 + d <? m)%nat.
Proof.
  destruct (Nat.ltb_spec (n + d) (n + m)), (Nat.ltb_spec (0 + d) m);
    reflexivity || lia.
Qed.

Lemma past_input_shift (n j m : nat) :
  past_input n j (n + m) = past_input 0 j m.
Proof.
  rewrite !past_input_spec. f_equal.
  destruct (Nat.leb_spec (4 * n + 6 * j) (4 * (n + m))),
    (Nat.leb_spec (4 * 0 + 6 * j) (4 * m)); reflexivity || lia.
Qed.

(** One round of the loop only looks at the input from its index on. *)
Lemma hex_step_shift pre s out :
  hex_step (pre ++ s) (String.length pre) out = hex_step s 0 out.
Proof.
  unfold hex_step. cbv zeta. cbn [fold_left].
  rewrite length_append, !past_input_shift, !ltb_shift, !hex_digit_shift,
    hex_digit_shift0.
  reflexivity.
Qed.

Lemma fold_quad i len t out :
  fold_left
    (fun output j =>
       if past_input i j len then output ++ b64pad
       else output ++
            JS.charAt tab
              (Z.to_nat (JS.band (JS.ushr t (6 * (3 - Z.of_nat j))) 63)))
    [0; 1; 2; 3]%nat out
  = out ++ quad i len t 0 ++ quad i len t 1 ++ quad i len t 2
    ++ quad i len t 3.
Proof.
  cbn [fold_left]. unfold quad.
  repeat match goal with
         | |- context [if ?b then _ else _] => destruct b
         end; now rewrite !append_assoc.
Qed.

Lemma charAt_0 c s : JS.charAt (String c s) 0 = String c "".
Proof. reflexivity. Qed.

Lemma charAt_S c s n : JS.charAt (String c s) (S n) = JS.charAt s n.
Proof. reflexivity. Qed.

Lemma quad_pad i len t j :
  (4 * len < 4 * i + 6 * j)%nat -> quad i len t j = b64pad.
Proof.
  intros H. unfold quad. rewrite past_input_spec.
  destruct (Nat.leb_spec (4 * i + 6 * j) (4 * len)); [lia|reflexivity].
Qed.

Lemma quad_char i len t j (m : N) :
  (4 * i + 6 * j <= 4 * len)%nat ->
  (JS.band (JS.ushr t (6 * (3 - Z.of_nat j))) 63 = Z.of_N m)%Z ->
  (m < 64)%N ->
  quad i len t j = String (sextet m) "".
Proof.
  intros H E Hm. unfold quad. rewrite past_input_spec.
  destruct (Nat.leb_spec (4 * i + 6 * j) (4 * len)); [|lia].
  cbn [negb]. now apply tab_sextet.
Qed.

Lemma sextet_N (nn : N) (s : Z) (k : N) :
  (nn < 16777216)%N -> s = Z.of_N k -> (k < 32)%N ->
  JS.band (JS.ushr (Z.of_N nn) s) 63 = Z.of_N ((nn / 2 ^ k) mod 64).
Proof.
  intros Hn -> Hk. rewrite sextet_value by lia.
  now rewrite N2Z.inj_mod, N2Z.inj_div, N2Z.inj_pow.
Qed.

Lemma top_sextet (nn : N) :
  (nn < 16777216)%N -> ((nn / 2 ^ 18) mod 64 = nn / 262144)%N.
Proof.
  intros H. change (2 ^ 18)%N with 262144%N. apply N.mod_small.
  apply N.Div0.div_lt_upper_bound. lia.
Qed.

Ltac quad_side :=
  first [ apply N.mod_lt; discriminate
        | apply sextet_N; [lia|reflexivity|reflexivity]
        | cbn [String.length]; lia ].

Ltac quad_chars nn :=
  rewrite ?(quad_char _ _ _ 0 ((nn / 2 ^ 18) mod 64)) by quad_side;
  rewrite ?(quad_char _ _ _ 1 ((nn / 2 ^ 12) mod 64)) by quad_side;
  rewrite ?(quad_char _ _ _ 2 ((nn / 2 ^ 6) mod 64)) by quad_side;
  rewrite ?(quad_char _ _ _ 3 ((nn / 2 ^ 0) mod 64)) by quad_side.

Lemma hex_step_full a b c rest out :
  hex_step (digest_hex (a :: b :: c :: rest)) 0 out
  = out ++ base64_encode [a; b; c].
Proof.
  unfold hex_step. cbv zeta. rewrite fold_quad. unfold hex_digit.
  cbn [digest_hex String.length Nat.add Nat.ltb Nat.leb].
  rewrite !charAt_S, !charAt_0, !byte_digits.
  rewrite triplet_value by apply byte_range.
  pose proof (byte_range a). pose proof (byte_range b).
  pose proof (byte_range c).
  set (nn := (to_N a * 65536 + to_N b * 256 + to_N c)%N).
  replace (Z.of_N (to_N a) * 65536 + Z.of_N (to_N b) * 256
           + Z.of_N (to_N c))%Z with (Z.of_N nn) by lia.
  assert (nn < 16777216)%N by lia.
  quad_chars nn.
  rewrite top_sextet by assumption.
  change (2 ^ 12)%N with 4096%N. change (2 ^ 6)%N with 64%N.
  change (2 ^ 0)%N with 1%N. rewrite N.div_1_r. reflexivity.
Qed.

Lemma hex_step_two a b out :
  hex_step (digest_hex [a; b]) 0 out = out ++ base64_encode [a; b].
Proof.
  unfold hex_step. cbv zeta. rewrite fold_quad. unfold hex_digit.
  cbn [digest_hex String.length Nat.add Nat.ltb Nat.leb].
  rewrite !charAt_S, !charAt_0, !byte_digits.
  change (0 + 0)%Z with 0%Z.
  rewrite triplet_value by (apply byte_range || lia).
  pose proof (byte_range a). pose proof (byte_range b).
  set (nn := (to_N a * 65536 + to_N b * 256)%N).
  replace (Z.of_N (to_N a) * 65536 + Z.of_N (to_N b) * 256 + 0)%Z
    with (Z.of_N nn) by lia.
  assert (nn < 16777216)%N by lia.
  quad_chars nn.
  rewrite quad_pad by (cbn [String.length]; lia).
  rewrite top_sextet by assumption.
  change (2 ^ 12)%N with 4096%N. change (2 ^ 6)%N with 64%N.
  reflexivity.
Qed.

Lemma hex_step_one a out :
  hex_step (digest_hex [a]) 0 out = out ++ base64_encode [a].
Proof.
  unfold hex_step. cbv zeta. rewrite fold_quad. unfold hex_digit.
  cbn [digest_hex String.length Nat.add Nat.ltb Nat.leb].
  rewrite !charAt_S, !charAt_0, !byte_digits.
  change (0 + 0)%Z with 0%Z.
  rewrite triplet_value by (apply byte_range || lia).
  pose proof (byte_range a).
  set (nn := (to_N a * 65536)%N).
  replace (Z.of_N (to_N a) * 65536 + 0 * 256 + 0)%Z
    with (Z.of_N nn) by lia.
  assert (nn < 16777216)%N by lia.
  quad_chars nn.
  rewrite !quad_pad by (cbn [String.length]; lia).
  rewrite top_sextet by assumption.
  change (2 ^ 12)%N with 4096%N.
  reflexivity.
Qed.

Lemma list_ind3 {A} (P : list A -> Prop) :
  P [] -> (forall a, P [a]) -> (forall a b, P [a; b]) ->
  (forall a b c r, P r -> P (a :: b :: c :: r)) ->
  forall l, P l.
Proof.
  intros H0 H1 H2 H3. fix IH 1.
  intros [|a [|b [|c r]]]; [exact H0|apply H1|apply H2|apply H3, IH].
Qed.

Lemma hex_loop_done fuel input i out :
  (String.length input <= i)%nat -> hex_loop fuel input i out = out.
Proof.
  intros H. destruct fuel; [reflexivity|]. cbn [hex_loop].
  destruct (Nat.ltb_spec i (String.length input)); [lia|reflexivity].
Qed.

Lemma hex_loop_round fuel input i out :
  (i < String.length input)%nat ->
  hex_loop (S fuel) input i out
  = hex_loop fuel input (i + 6) (hex_step input i out).
Proof.
  intros H. cbn [hex_loop].
  destruct (Nat.ltb_spec i (String.length input)); [reflexivity|lia].
Qed.

(** The fuel of the model does not cut the loop short: any two amounts that
    cover the rest of the input give the same result. *)
Lemma hex_loop_fuel f1 : forall f2 input i out,
  (String.length input - i <= f1)%nat ->
  (String.length input - i <= f2)%nat ->
  hex_loop f1 input i out = hex_loop f2 input i out.
Proof.
  induction f1 as [|f1 IH]; intros f2 input i out H1 H2.
  - now rewrite !hex_loop_done by lia.
  - destruct f2 as [|f2].
    + now rewrite !hex_loop_done by lia.
    + cbn [hex_loop].
      destruct (Nat.ltb_spec i (String.length input)); [|reflexivity].
      apply IH; lia.
Qed.

Lemma digest_hex_app l1 l2 :
  digest_hex (l1 ++ l2) = digest_hex l1 ++ digest_hex l2.
Proof. induction l1 as [|b l1 IH]; simpl; congruence. Qed.

Lemma digest_hex_length l :
  String.length (digest_hex l) = (2 * List.length l)%nat.
Proof. induction l as [|b l IH]; simpl; lia. Qed.

(** The loop of [hexStrToBase64] on the digits of a byte sequence, started
    at the end of any prefix, appends the standard encoding. *)
Lemma hex_loop_digest bs : forall pre out fuel,
  (String.length (digest_hex bs) <= fuel)%nat ->
  hex_loop fuel (pre ++ digest_hex bs) (String.length pre) out
  = out ++ base64_encode bs.
Proof.
  induction bs as [|a|a b|a b c r IH] using list_ind3;
    intros pre out fuel Hf.
  - rewrite hex_loop_done by (rewrite length_append; simpl; lia).
    simpl. now rewrite append_nil_r.
  - destruct fuel as [|fuel]; [simpl in Hf; lia|].
    rewrite hex_loop_round by (rewrite length_append; simpl; lia).
    rewrite hex_loop_done by (rewrite length_append; simpl; lia).
    now rewrite hex_step_shift, hex_step_one.
  - destruct fuel as [|fuel]; [simpl in Hf; lia|].
    rewrite hex_loop_round by (rewrite length_append; simpl; lia).
    rewrite hex_loop_done by (rewrite length_append; simpl; lia).
    now rewrite hex_step_shift, hex_step_two.
  - destruct fuel as [|fuel]; [simpl in Hf; lia|].
    rewrite hex_loop_round by (rewrite length_append; simpl; lia).
    rewrite hex_step_shift, hex_step_full.
    change (a :: b :: c :: r) with ([a; b; c] ++ r)%list.
    rewrite digest_hex_app, <- append_assoc.
    replace (String.length pre + 6)%nat
      with (String.length (pre ++ digest_hex [a; b; c]))
      by (rewrite length_append; reflexivity).
    rewrite IH.
    + rewrite append_assoc. reflexivity.
    + rewrite digest_hex_length in *. simpl in Hf. lia.
Qed.

(** The table-driven conversion of the hexadecimal digest is the standard
    base64 encoding of the digest bytes. *)
Lemma hexStrToBase64_digest bs :
  hexStrToBase64 (digest_hex bs) = base64_encode bs.
Proof.
  unfold hexStrToBase64.
  exact (hex_loop_digest bs "" "" _ (le_n _)).
Qed.

Lemma base64_length bs :
  String.length (base64_encode bs) = (4 * ((List.length bs + 2) / 3))%nat.
Proof.
  induction bs as [|a|a b|a b c r IH] using list_ind3; try reflexivity.
  cbn [base64_encode String.length List.length]. rewrite IH.
  replace (S (S (S (List.length r))) + 2)%nat
    with (List.length r + 2 + 1 * 3)%nat by lia.
  rewrite Nat.div_add by discriminate. lia.
Qed.

Lemma base64_length_mod4 bs : (String.length (base64_encode bs) mod 4 = 0)%nat.
Proof.
  rewrite base64_length, Nat.mul_comm. apply Nat.Div0.mod_mul.
Qed.

End HexFacts.

(** ** Percent-encoding *)

Section EncodeFacts.

Lemma replace_all_app c r a b :
  JS.replace_all c r (a ++ b) = JS.replace_all c r a ++ JS.replace_all c r b.
Proof.
  induction a as [|x a IH]; simpl; [reflexivity|].
  destruct (Ascii.eqb x c); rewrite IH; [now rewrite append_assoc|reflexivity].
Qed.

Lemma force_app a b : force (a ++ b) = force a ++ force b.
Proof. unfold force. now rewrite !replace_all_app. Qed.

Lemma force_encode_char c : force (JS.encode_char c) = percent_encode_char c.
Proof. destruct c as [[] [] [] [] [] [] [] []]; reflexivity. Qed.

(** [urlEncode] is the percent-encoding of the specification, character by
    character. *)
Lemma urlEncode_percent_encode s : urlEncode s = percent_encode s.
Proof.
  change (urlEncode s) with (force (JS.encodeURIComponent s)).
  induction s as [|c s IH]; [reflexivity|].
  cbn [JS.encodeURIComponent percent_encode].
  now rewrite force_app, force_encode_char, IH.
Qed.

Lemma decode_first_encode c t :
  decode_first (percent_encode_char c ++ t) = Some (c, t).
Proof. destruct c as [[] [] [] [] [] [] [] []]; reflexivity. Qed.

Lemma percent_encode_inj a b : percent_encode a = percent_encode b -> a = b.
Proof.
  revert b. induction a as [|x a IH]; intros [|y b] H.
  - reflexivity.
  - apply (f_equal decode_first) in H. cbn [percent_encode] in H.
    rewrite decode_first_encode in H. discriminate.
  - apply (f_equal decode_first) in H. cbn [percent_encode] in H.
    rewrite decode_first_encode in H. discriminate.
  - apply (f_equal decode_first) in H. cbn [percent_encode] in H.
    rewrite !decode_first_encode in H. injection H as -> H.
    f_equal. now apply IH.
Qed.

(** Distinct values have distinct encodings. *)
Lemma urlEncode_inj a b : urlEncode a = urlEncode b -> a = b.
Proof. rewrite !urlEncode_percent_encode. apply percent_encode_inj. Qed.

Lemma map_pair_percent input ks :
  map (pair_of input) ks
  = map (fun k => k ++ "=" ++ percent_encode (read input k)) ks.
Proof.
  apply map_ext. intros k. unfold pair_of.
  now rewrite urlEncode_percent_encode.
Qed.

End EncodeFacts.

Section SignatureClaims.

Context {Moment : Type}.
Variable toISOString : Moment -> string.
Variable hmac_sha256 : string -> string -> list byte.

Local Abbreviation Request := (Request Moment).
Local Abbreviation canonical := (canonical toISOString).
Local Abbreviation lookup := (lookup toISOString).
Local Abbreviation getStringToSign := (getStringToSign toISOString).
Local Abbreviation getQueryString := (getQueryString toISOString).
Local Abbreviation getSignature := (getSignature toISOString hmac_sha256).

Lemma getSignature_eq (r : Request) :
  getSignature r
  = base64_encode (hmac_sha256 (secretKey (credentials r))
                               (getStringToSign r (endpoint r))).
Proof.
  unfold Amazon.getSignature.
  now rewrite hexStrToBase64_digest, base64_length_mod4.
Qed.

(** C2.  The signature of a request is the standard base64 encoding, with
    the padding of base64 itself, of the raw digest that HMAC-SHA256 gives
    for the string-to-sign under the secret key; its length is a multiple of
    four, 44 characters for a digest of 32 bytes, and it is the value of the
    [Signature] parameter that [send] adds.  For every sequence of
    bytes, converting its hexadecimal form with the digit table and then
    running the loop that appends [=] gives what the standard encoder gives
    on the bytes. *)
Theorem signature_is_standard_base64 (r : Request) :
  getSignature r
  = base64_encode (hmac_sha256 (secretKey (credentials r))
                               (getStringToSign r (endpoint r)))
  /\ (String.length (getSignature r) mod 4 = 0)%nat
  /\ (List.length (hmac_sha256 (secretKey (credentials r))
                               (getStringToSign r (endpoint r))) = 32%nat ->
      String.length (getSignature r) = 44%nat)
  /\ parameters (fst (send toISOString hmac_sha256 r))
     = app (parameters r)
           [StringParameter "Signature"
              (base64_encode
                 (hmac_sha256 (secretKey (credentials r))
                              (getStringToSign r (endpoint r))))]
  /\ (forall bytes : list byte,
        let b64hmac := hexStrToBase64 (digest_hex bytes) in
        Nat.iter (String.length b64hmac mod 4)
                 (fun b64hmac => b64hmac ++ "=") b64hmac
        = base64_encode bytes).
Proof.
  split; [apply getSignature_eq|]. rewrite getSignature_eq.
  split; [apply base64_length_mod4|].
  split; [intros H; now rewrite base64_length, H|].
  split.
  - rewrite <- getSignature_eq. reflexivity.
  - intros bytes. cbv zeta.
    now rewrite hexStrToBase64_digest, base64_length_mod4.
Qed.

(** C3, as the code has it.  In the string-to-sign and in the query string
    every value of the canonical mapping is percent-encoded: URI-component
    encoding with [* ( ) ' !] written as [%2A %28 %29 %27 %21].  Every key
    is written as it is, without encoding. *)
Theorem values_are_percent_encoded (r : Request) :
  getStringToSign r (endpoint r)
  = String.concat (String "010" "")
      ["POST"; host (credentials r); endpoint r;
       String.concat "&"
         (map (fun k => k ++ "="
                        ++ percent_encode (read (canonical (parameters r)) k))
              (JS.Array_sort (keys (canonical (parameters r)))))]
  /\ getQueryString r
     = String.concat "&"
         (map (fun k => k ++ "="
                        ++ percent_encode (read (canonical (parameters r)) k))
              (keys (canonical (parameters r))))
  /\ (forall k, In k (keys (canonical (parameters r))) <->
                lookup (parameters r) k <> None)
  /\ (forall k v, lookup (parameters r) k = Some v ->
                  read (canonical (parameters r)) k = v)
  /\ (forall c, percent_encode_char c =
                if existsb (Ascii.eqb c) (list_ascii_of_string "*()'!")
                then JS.escape_byte (N_of_ascii c)
                else JS.encode_char c).
Proof.
  repeat split.
  - now rewrite getStringToSign_eq, map_pair_percent.
  - now rewrite getQueryString_eq, map_pair_percent.
  - apply canonical_keys_In.
  - apply canonical_keys_In.
  - apply read_lookup.
  - intros c. destruct c as [[] [] [] [] [] [] [] []]; reflexivity.
Qed.

End SignatureClaims.

(** ** Sending *)

Section SendFacts.

Context {Moment : Type}.
Variable toISOString : Moment -> string.
Variable hmac_sha256 : string -> string -> list byte.

Local Abbreviation Param := (Param Moment).
Local Abbreviation Request := (Request Moment).
Local Abbreviation serialize := (serialize toISOString).
Local Abbreviation canonical := (canonical toISOString).
Local Abbreviation lookup := (lookup toISOString).
Local Abbreviation getStringToSign := (getStringToSign toISOString).
Local Abbreviation getQueryString := (getQueryString toISOString).
Local Abbreviation getSignature := (getSignature toISOString hmac_sha256).
Local Abbreviation send := (send toISOString hmac_sha256).

Lemma lookup_app (ps qs : list Param) k :
  lookup (ps ++ qs) k =
  match lookup qs k with Some v => Some v | None => lookup ps k end.
Proof.
  induction ps as [|p ps IH]; simpl.
  - now destruct (lookup qs k).
  - rewrite IH. now destruct (lookup qs k).
Qed.

Lemma lookup_None (ps : list Param) k :
  (forall p, In p ps -> get (serialize p) k = None) -> lookup ps k = None.
Proof.
  induction ps as [|p ps IH]; intros H; simpl; [reflexivity|].
  rewrite IH by (intros q Hq; apply H; now right).
  apply H. now left.
Qed.

Lemma NoDup_split {A} (x : A) l :
  In x l -> NoDup l ->
  exists l1 l2, l = (l1 ++ x :: l2)%list /\ ~ In x l1 /\ ~ In x l2.
Proof.
  intros Hin Hnd. destruct (in_split _ _ Hin) as [l1 [l2 ->]].
  exists l1, l2. apply NoDup_remove_2 in Hnd.
  rewrite in_app_iff in Hnd. tauto.
Qed.

Lemma send_parameters (r : Request) :
  parameters (fst (send r))
  = (parameters r ++ [StringParameter "Signature" (getSignature r)])%list.
Proof. reflexivity. Qed.

Lemma send_lookup (r : Request) :
  lookup (parameters (fst (send r))) "Signature" = Some (getSignature r).
Proof. rewrite send_parameters, lookup_app. reflexivity. Qed.

Lemma pair_of_Signature (r : Request) :
  pair_of (canonical (parameters (fst (send r)))) "Signature"
  = "Signature=" ++ urlEncode (getSignature r).
Proof.
  unfold pair_of. now rewrite (read_lookup _ _ _ _ (send_lookup r)).
Qed.

(** C4, as the code has it.  When no parameter of the request serializes a
    [Signature] key, the canonical mapping the signature is computed over
    has no such key.  For every request, [send] adds the parameter
    [Signature] once, after signing, holding the computed signature; the
    mapping then has the key [Signature] once, and the query string of the
    POST is the [&]-joined pairs of the mapping, among them the pair
    [Signature] with the percent-encoded signature as its value. *)
Theorem signature_added_after_signing (r : Request) :
  ((forall p, In p (parameters r) -> get (serialize p) "Signature" = None) ->
   get (canonical (parameters r)) "Signature" = None)
  /\ parameters (fst (send r))
     = (parameters r ++ [StringParameter "Signature" (getSignature r)])%list
  /\ get (canonical (parameters (fst (send r)))) "Signature"
     = Some (getSignature r)
  /\ exists ks1 ks2 : list string,
       keys (canonical (parameters (fst (send r))))
       = (ks1 ++ "Signature" :: ks2)%list
       /\ ~ In "Signature" ks1 /\ ~ In "Signature" ks2
       /\ url (snd (send r))
          = "https://" ++ host (credentials r) ++ endpoint r ++ "?"
            ++ String.concat "&"
                 (app (map (pair_of (canonical (parameters (fst (send r)))))
                           ks1)
                      (("Signature=" ++ urlEncode (getSignature r))
                       :: map (pair_of (canonical (parameters (fst (send r)))))
                              ks2)).
Proof.
  split; [|split; [|split]].
  - intros H. rewrite get_canonical. now apply lookup_None.
  - apply send_parameters.
  - rewrite get_canonical. apply send_lookup.
  - destruct (NoDup_split "Signature"
                (keys (canonical (parameters (fst (send r))))))
      as [ks1 [ks2 [E [N1 N2]]]].
    + apply canonical_keys_In. rewrite send_lookup. discriminate.
    + apply canonical_keys_NoDup.
    + exists ks1, ks2. repeat split; try assumption.
      rewrite <- pair_of_Signature.
      change (url (snd (send r)))
        with ("https://" ++ host (credentials r) ++ endpoint r ++ "?"
              ++ getQueryString (fst (send r))).
      rewrite getQueryString_eq, E, map_app. reflexivity.
Qed.

Lemma StronglySorted_remove {A} (R : A -> A -> Prop) (a b : list A) x :
  StronglySorted R (a ++ x :: b) -> StronglySorted R (a ++ b).
Proof.
  induction a as [|y a IH]; simpl; intros H; inversion H; subst; auto.
  constructor; [auto|].
  rewrite Forall_app in *. destruct H3 as [Ha Hb].
  split; [exact Ha|]. now inversion Hb.
Qed.

Lemma concat_length sep (l : list string) :
  String.length (String.concat sep l)
  = (list_sum (map String.length l)
     + String.length sep * (List.length l - 1))%nat.
Proof.
  induction l as [|x l IH]; [simpl; lia|].
  destruct l as [|y l].
  - simpl. lia.
  - rewrite concat_cons_nonempty, !length_append, IH.
    cbn [map list_sum List.length Nat.sub]. rewrite !Nat.sub_0_r.
    rewrite (Nat.mul_succ_r _ (List.length l)).
    unfold list_sum. cbn [fold_right]. lia.
Qed.

Lemma send_lookup_other (r : Request) k :
  k <> "Signature" ->
  lookup (parameters (fst (send r))) k = lookup (parameters r) k.
Proof.
  intros H. rewrite send_parameters, lookup_app. cbn [Spec.lookup].
  rewrite get_serialize_string.
  destruct (String.eqb_spec "Signature" "__proto__"); [discriminate|].
  destruct (String.eqb_spec "Signature" k); [congruence|reflexivity].
Qed.

(** After a first [send] of a request without a [Signature] key, the
    string-to-sign is a longer one. *)
Lemma resend_string_differs (r : Request) :
  lookup (parameters r) "Signature" = None ->
  getStringToSign (fst (send r)) (endpoint r)
  <> getStringToSign r (endpoint r).
Proof.
  intros Hn E. rewrite !getStringToSign_eq in E.
  change (credentials (fst (send r))) with (credentials r) in E.
  do 6 apply append_inv_head in E.
  set (input1 := canonical (parameters (fst (send r)))) in *.
  set (input := canonical (parameters r)) in *.
  destruct (NoDup_split "Signature" (JS.Array_sort (keys input1)))
    as [a [b [Es [Na Nb]]]].
  { apply Array_sort_In, canonical_keys_In. rewrite send_lookup.
    discriminate. }
  { eapply Permutation_NoDup; [symmetry; apply sort_by_perm|].
    apply canonical_keys_NoDup. }
  assert (Hs : StronglySorted lex_lt (JS.Array_sort (keys input1)))
    by apply Array_sort_lt, canonical_keys_NoDup.
  assert (Ek : JS.Array_sort (keys input) = app a b).
  { apply sorted_unique.
    - apply Array_sort_lt, canonical_keys_NoDup.
    - rewrite Es in Hs. now apply StronglySorted_remove in Hs.
    - intros x. rewrite Array_sort_In. unfold input.
      rewrite canonical_keys_In.
      assert (In x (app a b) <->
              In x (JS.Array_sort (keys input1)) /\ x <> "Signature") as ->.
      { rewrite Es, !in_app_iff. simpl. split.
        - intros [H|H]; (split; [tauto|intros ->; contradiction]).
        - intros [[H|[H|H]] N]; [tauto|congruence|tauto]. }
      rewrite Array_sort_In. unfold input1. rewrite canonical_keys_In.
      split.
      + intros H. split.
        * destruct (String.eqb_spec x "Signature") as [->|N].
          -- rewrite send_lookup. discriminate.
          -- now rewrite send_lookup_other.
        * intros ->. contradiction.
      + intros [H N]. now rewrite send_lookup_other in H. }
  assert (Em : forall l, ~ In "Signature" l ->
                 map (pair_of input1) l = map (pair_of input) l).
  { intros l Hl. apply map_ext_in. intros k Hk. unfold pair_of, read.
    unfold input1, input. rewrite !get_canonical, send_lookup_other;
      [reflexivity|]. intros ->. contradiction. }
  apply (f_equal String.length) in E.
  rewrite Es, Ek, !map_app in E. cbn [map] in E.
  rewrite (Em a Na), (Em b Nb) in E.
  rewrite !concat_length, !map_app in E. cbn [map] in E.
  rewrite !list_sum_app, !length_app in E. cbn [list_sum List.length] in E.
  unfold input1 in E. rewrite pair_of_Signature, length_append in E.
  cbn [String.length] in E. unfold list_sum in E. cbn [fold_right] in E.
  lia.
Qed.

(** C10.  [send] appends the computed signature to the parameters of the
    request itself.  Afterwards the canonical mapping of the request holds
    that signature under [Signature], the string-to-sign of the request
    contains the pair [Signature=] followed by the percent-encoded first
    signature, and a second [send] computes its signature over that string
    and appends a second [Signature] parameter; for a request that had no
    [Signature] key, that string is not the one signed first. *)
Theorem second_send_signs_over_first_signature (r : Request) :
  parameters (fst (send r))
  = (parameters r ++ [StringParameter "Signature" (getSignature r)])%list
  /\ get (canonical (parameters (fst (send r)))) "Signature"
     = Some (getSignature r)
  /\ (exists l1 l2 : list string,
        getStringToSign (fst (send r)) (endpoint r)
        = String.concat (String "010" "")
            ["POST"; host (credentials r); endpoint r;
             String.concat "&"
               (app l1 (("Signature=" ++ urlEncode (getSignature r)) :: l2))])
  /\ getSignature (fst (send r))
     = base64_encode
         (hmac_sha256 (secretKey (credentials r))
                      (getStringToSign (fst (send r)) (endpoint r)))
  /\ parameters (fst (send (fst (send r))))
     = (parameters r
        ++ [StringParameter "Signature" (getSignature r);
            StringParameter "Signature" (getSignature (fst (send r)))])%list
  /\ (get (canonical (parameters r)) "Signature" = None ->
      getStringToSign (fst (send r)) (endpoint r)
      <> getStringToSign r (endpoint r)).
Proof.
  split; [|split; [|split; [|split; [|split]]]].
  - apply send_parameters.
  - rewrite get_canonical. apply send_lookup.
  - destruct (in_split "Signature"
                (JS.Array_sort (keys (canonical (parameters (fst (send r)))))))
      as [k1 [k2 E]].
    + apply Array_sort_In, canonical_keys_In. rewrite send_lookup.
      discriminate.
    + exists (map (pair_of (canonical (parameters (fst (send r))))) k1),
             (map (pair_of (canonical (parameters (fst (send r))))) k2).
      rewrite getStringToSign_eq, E, map_app. cbn [map].
      now rewrite pair_of_Signature.
  - exact (getSignature_eq toISOString hmac_sha256 (fst (send r))).
  - rewrite !send_parameters, <- app_assoc. reflexivity.
  - rewrite get_canonical. apply resend_string_differs.
Qed.

End SendFacts.

(** ** Order of insertion *)

Section OrderClaims.

Context {Moment : Type}.
Variable toISOString : Moment -> string.
Variable hmac_sha256 : string -> string -> list byte.

Local Abbreviation Param := (Param Moment).
Local Abbreviation Request := (Request Moment).
Local Abbreviation serialize := (serialize toISOString).
Local Abbreviation canonical := (canonical toISOString).
Local Abbreviation lookup := (lookup toISOString).
Local Abbreviation agree := (agree toISOString).
Local Abbreviation getStringToSign := (getStringToSign toISOString).
Local Abbreviation getSignature := (getSignature toISOString hmac_sha256).

Lemma lookup_Some_In (ps : list Param) k v :
  lookup ps k = Some v ->
  exists p, In p ps /\ get (serialize p) k = Some v.
Proof.
  induction ps as [|p ps IH]; simpl; [discriminate|].
  destruct (lookup ps k) as [w|] eqn:E.
  - intros [= ->]. destruct (IH eq_refl) as [q [Hq G]]. exists q. auto.
  - intros H. exists p. auto.
Qed.

Lemma lookup_None_all (ps : list Param) k :
  lookup ps k = None -> forall p, In p ps -> get (serialize p) k = None.
Proof.
  induction ps as [|p ps IH]; simpl; [intros _ q []|].
  destruct (lookup ps k) as [w|] eqn:E; [discriminate|].
  intros H q [<-|Hq]; auto.
Qed.

(** With agreeing parameters the last-written value of a key does not
    depend on which parameter comes last. *)
Lemma lookup_same_members (ps qs : list Param) :
  (forall p, In p ps <-> In p qs) -> agree ps ->
  forall k, lookup ps k = lookup qs k.
Proof.
  intros Hm Ha k.
  destruct (lookup ps k) as [v|] eqn:E1, (lookup qs k) as [w|] eqn:E2;
    try reflexivity.
  - destruct (lookup_Some_In _ _ _ E1) as [p [Hp G1]].
    destruct (lookup_Some_In _ _ _ E2) as [q [Hq G2]].
    f_equal. apply (Ha p q k v w); auto. now apply Hm.
  - destruct (lookup_Some_In _ _ _ E1) as [p [Hp G1]].
    apply Hm in Hp. rewrite (lookup_None_all _ _ E2 p Hp) in G1. discriminate.
  - destruct (lookup_Some_In _ _ _ E2) as [q [Hq G2]].
    apply Hm in Hq. rewrite (lookup_None_all _ _ E1 q Hq) in G2. discriminate.
Qed.

Lemma NoDup_app_disjoint {A} (l l' : list A) :
  NoDup (l ++ l') -> forall a, In a l -> ~ In a l'.
Proof.
  induction l as [|x l IH]; simpl; intros H a; [tauto|].
  inversion H as [|? ? Hx Hl]; subst. intros [<-|Ha] Hl'.
  - apply Hx. apply in_app_iff. now right.
  - now apply (IH Hl a).
Qed.

(** When no key is serialized twice, the parameters agree. *)
Lemma distinct_keys_agree (ps : list Param) :
  NoDup (all_keys toISOString ps) -> agree ps.
Proof.
  unfold Spec.agree, all_keys.
  induction ps as [|a ps IH]; cbn [flat_map]; intros H p q k v w Hp Hq Gp Gq.
  - destruct Hp.
  - pose proof (NoDup_app_disjoint _ _ H k) as D.
    assert (forall x u, In x ps -> get (serialize x) k = Some u ->
              In k (flat_map (fun p => map fst (serialize p)) ps)) as F.
    { intros x u Hx G. apply in_flat_map. exists x. split; [exact Hx|].
      apply get_In. congruence. }
    assert (forall u, get (serialize a) k = Some u ->
              In k (map fst (serialize a))) as Fa.
    { intros u G. apply get_In. congruence. }
    destruct Hp as [<-|Hp], Hq as [<-|Hq].
    + congruence.
    + exfalso. exact (D (Fa _ Gp) (F _ _ Hq Gq)).
    + exfalso. exact (D (Fa _ Gq) (F _ _ Hp Gp)).
    + apply NoDup_app_remove_l in H. exact (IH H p q k v w Hp Hq Gp Gq).
Qed.

(** C5, as the code has it.  Two requests with the same credentials and
    endpoint whose parameter sequences hold the same parameters in any
    order, where any two parameters that serialize the same key give it the
    same value (so in particular when no key is serialized twice), have the
    same string-to-sign and the same signature.  Signing is a function of
    the request in this embedding, so equal inputs give equal outputs. *)
Theorem reordered_parameters_same_signature (r r' : Request) :
  credentials r' = credentials r ->
  endpoint r' = endpoint r ->
  Permutation (parameters r) (parameters r') ->
  agree (parameters r) ->
  getStringToSign r' (endpoint r') = getStringToSign r (endpoint r)
  /\ getSignature r' = getSignature r.
Proof.
  intros Hc He Hp Ha.
  assert (E : getStringToSign r' (endpoint r')
              = getStringToSign r (endpoint r)).
  { rewrite !getStringToSign_eq, Hc, He.
    rewrite (sorted_pairs_ext toISOString (parameters r') (parameters r));
      [reflexivity|].
    intros k. symmetry. apply lookup_same_members; [|exact Ha].
    intros p. split; apply Permutation_in; [|symmetry]; exact Hp. }
  split; [exact E|].
  unfold Amazon.getSignature. now rewrite E, Hc.
Qed.

End OrderClaims.

(** A request with two parameters, and the same with the two exchanged. *)
Lemma reordered_parameters_witness :
  let r :=
    Sample.request_of [StringParameter "A" "1"; StringParameter "B" "2"] in
  let r' :=
    Sample.request_of [StringParameter "B" "2"; StringParameter "A" "1"] in
  getStringToSign Sample.iso r' (endpoint r')
  = getStringToSign Sample.iso r (endpoint r)
  /\ getSignature Sample.iso Sample.mac r'
     = getSignature Sample.iso Sample.mac r.
Proof.
  apply (reordered_parameters_same_signature Sample.iso Sample.mac).
  - reflexivity.
  - reflexivity.
  - apply perm_swap.
  - intros p q k v w [<-|[<-|[]]] [<-|[<-|[]]];
      rewrite !get_serialize_string;
      destruct (String.eqb_spec "A" "__proto__"),
        (String.eqb_spec "B" "__proto__"),
        (String.eqb_spec "A" k), (String.eqb_spec "B" k);
      intros; congruence.
Defined.

(** C5 as stated fails: with a key serialized twice the order decides which
    value wins, and the string-to-sign changes with it. *)
Lemma reordered_duplicates_counterexample :
  Permutation
    [StringParameter (Moment := string) "A" "1"; StringParameter "A" "2"]
    [StringParameter "A" "2"; StringParameter "A" "1"]
  /\ getStringToSign Sample.iso
       (Sample.request_of [StringParameter "A" "1"; StringParameter "A" "2"])
       "/"
     = "POST" ++ String "010" "example.test" ++ String "010" "/"
       ++ String "010" "A=2"
  /\ getStringToSign Sample.iso
       (Sample.request_of [StringParameter "A" "2"; StringParameter "A" "1"])
       "/"
     = "POST" ++ String "010" "example.test" ++ String "010" "/"
       ++ String "010" "A=1"
  /\ getStringToSign Sample.iso
       (Sample.request_of [StringParameter "A" "1"; StringParameter "A" "2"])
       "/"
     <> getStringToSign Sample.iso
          (Sample.request_of [StringParameter "A" "2"; StringParameter "A" "1"])
          "/".
Proof.
  split; [apply perm_swap|]. split; [reflexivity|]. split; [reflexivity|].
  vm_compute. discriminate.
Qed.

(** ** Base64 loses nothing *)

Section Base64Facts.

Lemma sextet_index (m : N) :
  (m < 64)%N ->
  JS.indexOf base64_alphabet (String (sextet m) "") = Z.of_N m.
Proof.
  intros H. unfold sextet.
  replace (Z.of_N m) with (Z.of_nat (N.to_nat m)) by lia.
  assert (N.to_nat m < 64)%nat as Hn by lia.
  revert Hn. generalize (N.to_nat m) as i. intros i Hi.
  do 64 (destruct i as [|i]; [reflexivity|]). lia.
Qed.

Lemma sextet_inj (m1 m2 : N) :
  (m1 < 64)%N -> (m2 < 64)%N -> sextet m1 = sextet m2 -> m1 = m2.
Proof.
  intros H1 H2 E. apply N2Z.inj.
  rewrite <- (sextet_index m1 H1), <- (sextet_index m2 H2). now rewrite E.
Qed.

Lemma sextet_not_pad (m : N) : (m < 64)%N -> sextet m <> "="%char.
Proof.
  intros H E. pose proof (sextet_index m H) as I. rewrite E in I.
  assert (JS.indexOf base64_alphabet "=" = (-1)%Z) as P by reflexivity.
  rewrite P in I. lia.
Qed.

Lemma to_N_inj (a b : byte) : Byte.to_N a = Byte.to_N b -> a = b.
Proof.
  intros H. assert (Some a = Some b) as [= ->]; [|reflexivity].
  now rewrite <- (Byte.of_to_N a), <- (Byte.of_to_N b), H.
Qed.

Lemma recombine (n : N) :
  (n = 262144 * (n / 262144) + 4096 * ((n / 4096) mod 64)
       + 64 * ((n / 64) mod 64) + n mod 64)%N.
Proof. zify. Z.to_euclidean_division_equations. lia. Qed.

Ltac sextet_eqs :=
  repeat match goal with
         | E : sextet _ = sextet _ |- _ =>
             apply sextet_inj in E;
             [ | first [ apply N.mod_lt; discriminate
                       | apply N.Div0.div_lt_upper_bound; lia ] .. ]
         | E : sextet _ = "="%char |- _ =>
             apply sextet_not_pad in E;
             [ destruct E | apply N.mod_lt; discriminate ]
         | E : "="%char = sextet _ |- _ => symmetry in E
         end.

Lemma base64_encode_inj bs1 :
  forall bs2, base64_encode bs1 = base64_encode bs2 -> bs1 = bs2.
Proof.
  induction bs1 as [|a|a b|a b c r IH] using list_ind3;
    intros [|a' [|b' [|c' r']]] H;
    cbn [base64_encode] in H; try discriminate; try reflexivity;
    injection H; clear H; intros;
    repeat match goal with
           | x : byte |- _ =>
               lazymatch goal with
               | _ : (Byte.to_N x <= 255)%N |- _ => fail
               | _ => pose proof (Byte.to_N_bounded x)
               end
           end;
    sextet_eqs.
  - assert (Byte.to_N a = Byte.to_N a') as E
      by (zify; Z.to_euclidean_division_equations; lia).
    apply to_N_inj in E. now subst.
  - set (n := (Byte.to_N a * 65536 + Byte.to_N b * 256)%N) in *.
    set (n' := (Byte.to_N a' * 65536 + Byte.to_N b' * 256)%N) in *.
    assert (n mod 64 = 0 /\ n' mod 64 = 0)%N as [Z1 Z2]
      by (subst n n'; zify; Z.to_euclidean_division_equations; lia).
    assert (n = n') as E
      by (rewrite (recombine n), (recombine n'); congruence).
    assert (Byte.to_N a = Byte.to_N a' /\ Byte.to_N b = Byte.to_N b')
      as [E1 E2] by (subst n n'; lia).
    apply to_N_inj in E1, E2. now subst.
  - set (n := (Byte.to_N a * 65536 + Byte.to_N b * 256 + Byte.to_N c)%N) in *.
    set (n' := (Byte.to_N a' * 65536 + Byte.to_N b' * 256 + Byte.to_N c')%N)
      in *.
    assert (n = n') as E
      by (rewrite (recombine n), (recombine n'); congruence).
    assert (Byte.to_N a = Byte.to_N a' /\ Byte.to_N b = Byte.to_N b'
            /\ Byte.to_N c = Byte.to_N c')
      as [E1 [E2 E3]] by (subst n n'; lia).
    apply to_N_inj in E1, E2, E3. subst. f_equal. f_equal. f_equal.
    now apply IH.
Qed.

End Base64Facts.

(** ** Changing one value *)

Section ChangeFacts.

(** An element of a joined list sits between a prefix and a suffix that do
    not depend on it. *)
Lemma concat_mid sep (A B : list string) :
  exists P S, forall x, String.concat sep (app A (x :: B)) = P ++ x ++ S.
Proof.
  induction A as [|a A [P [S IH]]].
  - exists "". destruct B as [|b B].
    + exists "". intros x. cbn. now rewrite append_nil_r.
    + exists (sep ++ String.concat sep (b :: B)). intros x. reflexivity.
  - exists (a ++ sep ++ P), S. intros x.
    change ((a :: A) ++ x :: B)%list with (a :: (A ++ x :: B))%list.
    destruct (A ++ x :: B)%list as [|y l] eqn:E.
    + destruct A; discriminate.
    + rewrite concat_cons_nonempty, <- E, IH. now rewrite !append_assoc.
Qed.

Lemma get_app {T} (d1 d2 : Dictionary T) k :
  get (app d1 d2) k =
  match get d1 k with Some v => Some v | None => get d2 k end.
Proof.
  induction d1 as [|[k0 v0] d1 IH]; simpl; [reflexivity|].
  now destruct (String.eqb k0 k).
Qed.

Lemma get_changed {T} (l1 l2 : Dictionary T) k (v v' : T) k0 :
  k0 <> k ->
  get (app l1 ((k, v) :: l2)) k0 = get (app l1 ((k, v') :: l2)) k0.
Proof.
  intros H. rewrite !get_app. simpl.
  destruct (String.eqb_spec k k0); [congruence|reflexivity].
Qed.

Lemma get_mid {T} (l1 l2 : Dictionary T) k (v : T) :
  wf (app l1 ((k, v) :: l2)) -> get (app l1 ((k, v) :: l2)) k = Some v.
Proof.
  unfold wf. rewrite map_app. simpl. intros H.
  apply NoDup_remove_2 in H. rewrite in_app_iff in H.
  rewrite get_app. simpl. rewrite String.eqb_refl.
  destruct (get l1 k) eqn:E; [|reflexivity].
  exfalso. apply H. left. apply get_In. congruence.
Qed.

End ChangeFacts.

Section ChangeClaims.

Context {Moment : Type}.
Variable toISOString : Moment -> string.
Variable hmac_sha256 : string -> string -> list byte.

Local Abbreviation Param := (Param Moment).
Local Abbreviation Request := (Request Moment).
Local Abbreviation serialize := (serialize toISOString).
Local Abbreviation canonical := (canonical toISOString).
Local Abbreviation lookup := (lookup toISOString).
Local Abbreviation getStringToSign := (getStringToSign toISOString).
Local Abbreviation getSignature := (getSignature toISOString hmac_sha256).

Lemma lookup_changed (ps qs : list Param) (p p' : Param)
    (l1 l2 : Dictionary string) (k v v' : string) :
  serialize p = (l1 ++ (k, v) :: l2)%list ->
  serialize p' = (l1 ++ (k, v') :: l2)%list ->
  lookup qs k = None ->
  lookup (ps ++ p :: qs) k = Some v
  /\ lookup (ps ++ p' :: qs) k = Some v'
  /\ forall k0, k0 <> k ->
                lookup (ps ++ p' :: qs) k0 = lookup (ps ++ p :: qs) k0.
Proof.
  intros Hp Hp' Hq.
  pose proof (serialize_wf toISOString p) as W. rewrite Hp in W.
  pose proof (serialize_wf toISOString p') as W'. rewrite Hp' in W'.
  rewrite !lookup_app. cbn [Spec.lookup]. rewrite Hq, Hp, Hp'.
  rewrite (get_mid _ _ _ _ W), (get_mid _ _ _ _ W').
  repeat split. intros k0 Hk0. rewrite !lookup_app. cbn [Spec.lookup].
  rewrite Hp, Hp', (get_changed l1 l2 k v v' k0 Hk0). reflexivity.
Qed.

(** C6, as the code has it.  Take a request and one of its parameters, and
    change one of the values that parameter serializes, under a key that no
    later parameter serializes: the string-to-sign changes, and the
    signature changes whenever the digests of the two strings differ. *)
Theorem changed_value_changes_signature (r : Request)
    (ps qs : list Param) (p p' : Param) (l1 l2 : Dictionary string)
    (k v v' : string) :
  parameters r = (ps ++ p :: qs)%list ->
  serialize p = (l1 ++ (k, v) :: l2)%list ->
  serialize p' = (l1 ++ (k, v') :: l2)%list ->
  v <> v' ->
  lookup qs k = None ->
  let r' := {| endpoint := endpoint r; credentials := credentials r;
               parameters := (ps ++ p' :: qs)%list |} in
  getStringToSign r' (endpoint r') <> getStringToSign r (endpoint r)
  /\ (hmac_sha256 (secretKey (credentials r))
                  (getStringToSign r' (endpoint r'))
      <> hmac_sha256 (secretKey (credentials r))
                     (getStringToSign r (endpoint r)) ->
      getSignature r' <> getSignature r).
Proof.
  intros Hr Hp Hp' Hv Hq r'.
  destruct (lookup_changed ps qs p p' l1 l2 k v v' Hp Hp' Hq)
    as [L [L' Lo]].
  split.
  - rewrite !getStringToSign_eq. cbn [endpoint credentials parameters r'].
    rewrite Hr. intros E. do 6 apply append_inv_head in E.
    assert (JS.Array_sort (keys (canonical (ps ++ p' :: qs)))
            = JS.Array_sort (keys (canonical (ps ++ p :: qs)))) as Ek.
    { apply Array_sort_ext; auto using canonical_keys_NoDup.
      intros k0. rewrite !canonical_keys_In.
      destruct (String.eqb_spec k0 k) as [->|N].
      - rewrite L, L'. split; discriminate.
      - now rewrite (Lo k0 N). }
    rewrite Ek in E.
    destruct (NoDup_split k (JS.Array_sort (keys (canonical (ps ++ p :: qs)))))
      as [a [b [Es [Na Nb]]]].
    { apply Array_sort_In, canonical_keys_In. rewrite L. discriminate. }
    { eapply Permutation_NoDup; [symmetry; apply sort_by_perm|].
      apply canonical_keys_NoDup. }
    rewrite Es, !map_app in E. cbn [map] in E.
    assert (forall l, ~ In k l ->
              map (pair_of (canonical (ps ++ p' :: qs))) l
              = map (pair_of (canonical (ps ++ p :: qs))) l) as Em.
    { intros l Hl. apply map_ext_in. intros k0 Hk0. unfold pair_of, read.
      rewrite !get_canonical, Lo; [reflexivity|]. intros ->. contradiction. }
    rewrite (Em a Na), (Em b Nb) in E.
    destruct (concat_mid "&" (map (pair_of (canonical (ps ++ p :: qs))) a)
                             (map (pair_of (canonical (ps ++ p :: qs))) b))
      as [P [S Hmid]].
    rewrite !Hmid in E. apply append_inv_head in E. apply append_inv_tail in E.
    unfold pair_of in E. do 2 apply append_inv_head in E.
    rewrite (read_lookup _ _ _ _ L), (read_lookup _ _ _ _ L') in E.
    apply urlEncode_inj in E. congruence.
  - intros Hd E. rewrite !getSignature_eq in E.
    apply base64_encode_inj in E. exact (Hd E).
Qed.

End ChangeClaims.

(** One value of one parameter changed, under a key no later parameter
    writes. *)
Lemma changed_value_witness :
  let r :=
    Sample.request_of [StringParameter "A" "1"; StringParameter "B" "2"] in
  let r' :=
    Sample.request_of [StringParameter "A" "x"; StringParameter "B" "2"] in
  getStringToSign Sample.iso r' (endpoint r')
  <> getStringToSign Sample.iso r (endpoint r)
  /\ (Sample.mac (secretKey (credentials r))
                 (getStringToSign Sample.iso r' (endpoint r'))
      <> Sample.mac (secretKey (credentials r))
                    (getStringToSign Sample.iso r (endpoint r)) ->
      getSignature Sample.iso Sample.mac r'
      <> getSignature Sample.iso Sample.mac r).
Proof.
  apply (changed_value_changes_signature Sample.iso Sample.mac
           (Sample.request_of
              [StringParameter "A" "1"; StringParameter "B" "2"])
           [] [StringParameter "B" "2"]
           (StringParameter "A" "1") (StringParameter "A" "x")
           [] [] "A" "1" "x").
  - reflexivity.
  - reflexivity.
  - reflexivity.
  - discriminate.
  - reflexivity.
Defined.

(** C6 as stated fails: the value of a parameter whose key a later
    parameter writes again does not reach the string-to-sign, so changing
    it leaves the signature as it was, whatever the digest function. *)
Lemma overwritten_value_counterexample :
  "1" <> "x"
  /\ getStringToSign Sample.iso
       (Sample.request_of [StringParameter "A" "1"; StringParameter "A" "2"])
       "/"
     = getStringToSign Sample.iso
         (Sample.request_of [StringParameter "A" "x"; StringParameter "A" "2"])
         "/"
  /\ forall hmac_sha256 : string -> string -> list byte,
       getSignature Sample.iso hmac_sha256
         (Sample.request_of [StringParameter "A" "1"; StringParameter "A" "2"])
       = getSignature Sample.iso hmac_sha256
           (Sample.request_of
              [StringParameter "A" "x"; StringParameter "A" "2"]).
Proof.
  split; [discriminate|]. split; [reflexivity|].
  intros hmac_sha256. reflexivity.
Qed.

(** C3 as stated fails: a key is written as it is.  For the key [a b] the
    string-to-sign and the query string hold [a b=], not [a%20b=]. *)
Lemma key_not_encoded_counterexample :
  getStringToSign Sample.iso
    (Sample.request_of [StringParameter "a b" "c d"]) "/"
  = "POST" ++ String "010" "example.test" ++ String "010" "/"
    ++ String "010" "a b=c%20d"
  /\ getQueryString Sample.iso
       (Sample.request_of [StringParameter "a b" "c d"])
     = "a b=c%20d"
  /\ urlEncode "a b" = "a%20b"
  /\ getQueryString Sample.iso
       (Sample.request_of [StringParameter "a b" "c d"])
     <> urlEncode "a b" ++ "=" ++ urlEncode "c d".
Proof.
  split; [reflexivity|]. split; [reflexivity|]. split; [reflexivity|].
  vm_compute. discriminate.
Qed.

(** C4 as stated fails: a parameter named [Signature] that is in the
    sequence before signing is part of the canonical mapping and of the
    string that is signed. *)
Lemma signature_key_signed_counterexample :
  get (canonical Sample.iso [StringParameter "Signature" "x"]) "Signature"
  = Some "x"
  /\ getStringToSign Sample.iso
       (Sample.request_of [StringParameter "Signature" "x"]) "/"
     = "POST" ++ String "010" "example.test" ++ String "010" "/"
       ++ String "010" "Signature=x".
Proof. split; reflexivity. Qed.

(** ** Classification of the response *)

Section ResponseClaims.

Variable xmlParse : JsValue -> JsValue * JsValue.

Local Abbreviation on_response := (on_response xmlParse).

(** The classification on the bodies that carry their error.  Whenever the
    parsed body either has no [ErrorResponse] property or has an [Error]
    under it, the callback of the POST invokes the caller's callback exactly
    once: with a transport error carrying the error and the response when
    the HTTP call reports an error; with a parse error when the XML parser
    reports one; with an API error carrying [ErrorResponse.Error.Message]
    as message and [ErrorResponse.Error] as metadata when the parsed body
    has an [ErrorResponse] property; and with the parsed body as the result
    when it has no [ErrorResponse] property.  A body parsed as
    [ErrorResponse > Error > Message = Bad] gives an API error with message
    [Bad]. *)
Lemma response_classified (err httpResponse body : JsValue) :
  ((truthy err = false -> truthy (fst (xmlParse body)) = false ->
    carries_error (snd (xmlParse body))) ->
   exists call, on_response err httpResponse body = Normal [call])
  /\ (truthy err = true ->
      on_response err httpResponse body
      = Normal [(JObject [("origin", JString "PostRequest"); ("message", err);
                          ("metadata", httpResponse)], JUndefined)])
  /\ (truthy err = false -> truthy (fst (xmlParse body)) = true ->
      on_response err httpResponse body
      = Normal [(JObject [("origin", JString "XMLParsing");
                          ("message", fst (xmlParse body))], JUndefined)])
  /\ (truthy err = false -> truthy (fst (xmlParse body)) = false ->
      forall props report error,
        snd (xmlParse body) = JObject props ->
        get props "ErrorResponse" = Some report ->
        member report "Error" = Normal error ->
        error <> JUndefined -> error <> JNull ->
        exists message,
          member error "Message" = Normal message
          /\ on_response err httpResponse body
             = Normal [(JObject [("origin", JString "MWS");
                                 ("message", message);
                                 ("metadata", error)], JUndefined)])
  /\ (truthy err = false -> truthy (fst (xmlParse body)) = false ->
      has (snd (xmlParse body)) "ErrorResponse" = false ->
      on_response err httpResponse body
      = Normal [(JNull, snd (xmlParse body))])
  /\ (truthy err = false ->
      xmlParse body
      = (JNull,
         JObject [("ErrorResponse",
                   JObject [("Error",
                             JObject [("Message", JString "Bad")])])]) ->
      on_response err httpResponse body
      = Normal [(JObject [("origin", JString "MWS");
                          ("message", JString "Bad");
                          ("metadata", JObject [("Message", JString "Bad")])],
                 JUndefined)]).
Proof.
  unfold Amazon.on_response, on_parsed.
  destruct (xmlParse body) as [perr result] eqn:X. cbn [fst snd].
  assert (Api : forall props report error,
            get props "ErrorResponse" = Some report ->
            member report "Error" = Normal error ->
            error <> JUndefined -> error <> JNull ->
            exists message,
              member error "Message" = Normal message
              /\ (if has (JObject props) "ErrorResponse"
                  then
                    e1 <- member (JObject props) "ErrorResponse" ;;
                    e2 <- member e1 "Error" ;;
                    message <- member e2 "Message" ;;
                    m1 <- member (JObject props) "ErrorResponse" ;;
                    metadata <- member m1 "Error" ;;
                    Normal [(JObject [("origin", JString "MWS");
                                      ("message", message);
                                      ("metadata", metadata)], JUndefined)]
                  else Normal [(JNull, JObject props)])
                 = Normal [(JObject [("origin", JString "MWS");
                                     ("message", message);
                                     ("metadata", error)], JUndefined)]).
  { intros props report error G M N1 N2.
    cbn [has member]. rewrite G. cbn [bind]. rewrite M. cbn [bind].
    destruct error as [| |s|items|eprops]; try contradiction.
    - exists JUndefined. split; reflexivity.
    - exists JUndefined. split; reflexivity.
    - cbn [member]. destruct (get eprops "Message") as [m|].
      + exists m. split; reflexivity.
      + exists JUndefined. split; reflexivity. }
  split; [|repeat split].
  - intros H. destruct (truthy err); [eexists; reflexivity|].
    destruct (truthy perr); [eexists; reflexivity|].
    specialize (H eq_refl eq_refl).
    destruct result as [| |s|items|props]; try (eexists; reflexivity).
    destruct (get props "ErrorResponse") as [report|] eqn:G.
    + destruct (H props report eq_refl G) as [error [M [N1 N2]]].
      destruct (Api props report error G M N1 N2) as [message [_ E]].
      eexists. exact E.
    + cbn [has]. rewrite G. eexists; reflexivity.
  - now intros ->.
  - now intros -> ->.
  - intros -> -> props report error -> G M N1 N2.
    destruct (Api props report error G M N1 N2) as [message [Hm E]].
    exists message. split; [exact Hm|exact E].
  - now intros -> -> ->.
  - intros -> [= -> ->]. reflexivity.
Qed.

End ResponseClaims.

(** C8.  The handler on an error report without an [Error] element: for the
    body [<ErrorResponse><RequestId>x</RequestId></ErrorResponse>], parsed
    as an [ErrorResponse] object holding only [RequestId], the branch that
    is to deliver the API error reads [Message] of the missing [Error] and
    throws, before any call of the caller's callback: no outcome is
    delivered, where C8 has an API error delivered.  The same happens when
    the [ErrorResponse] element is empty. *)
Theorem error_report_without_error_throws :
  has (JObject [("ErrorResponse", JObject [("RequestId", JString "x")])])
      "ErrorResponse" = true
  /\ on_parsed JNull
       (JObject [("ErrorResponse", JObject [("RequestId", JString "x")])])
     = TypeError
  /\ on_response
       (fun _ =>
          (JNull,
           JObject [("ErrorResponse", JObject [("RequestId", JString "x")])]))
       JNull JUndefined
       (JString
          "<ErrorResponse><RequestId>x</RequestId></ErrorResponse>")
     = TypeError
  /\ on_parsed JNull (JObject [("ErrorResponse", JString "")]) = TypeError.
Proof. repeat split. Qed.

(** * Further properties of the module *)

(** ** The URL-encoding helper *)

Section EncodeExtras.

Lemma all_chars_append f a b :
  all_chars f (a ++ b) = all_chars f a && all_chars f b.
Proof.
  induction a as [|c a IH]; simpl; [reflexivity|].
  now rewrite IH, andb_assoc.
Qed.

Lemma percent_encode_char_safe c :
  all_chars url_safe (percent_encode_char c) = true.
Proof. destruct c as [[] [] [] [] [] [] [] []]; reflexivity. Qed.

(** X1.  Whatever the input, the output of [urlEncode] is made of letters,
    digits and the characters [- _ . ~ %] only: none of the characters with
    a meaning in a query string ([&], [=], [+], [?], [#], the space) and
    none of [* ( ) ' !] is left in it. *)
Theorem urlEncode_safe (s : string) : all_chars url_safe (urlEncode s) = true.
Proof.
  rewrite urlEncode_percent_encode.
  induction s as [|c s IH]; [reflexivity|].
  cbn [percent_encode].
  now rewrite all_chars_append, percent_encode_char_safe, IH.
Qed.

Lemma percent_decode_encode s : forall fuel, (String.length s <= fuel)%nat ->
  percent_decode fuel (percent_encode s) = Some s.
Proof.
  induction s as [|c s IH]; intros fuel H.
  - destruct fuel; reflexivity.
  - destruct fuel as [|f]; [simpl in H; lia|].
    cbn [percent_encode percent_decode]. rewrite decode_first_encode.
    rewrite IH by (simpl in H; lia). reflexivity.
Qed.

Lemma percent_encode_length s :
  (String.length s <= String.length (percent_encode s))%nat.
Proof.
  induction s as [|c s IH]; [reflexivity|].
  cbn [percent_encode]. rewrite length_append.
  assert (1 <= String.length (percent_encode_char c))%nat.
  { destruct c as [[] [] [] [] [] [] [] []]; vm_compute; lia. }
  simpl. lia.
Qed.

(** X2.  Reading the escapes of [urlEncode s] back gives [s]: the encoding
    loses nothing. *)
Theorem urlEncode_round_trip (s : string) :
  percent_decode (String.length (urlEncode s)) (urlEncode s) = Some s.
Proof.
  rewrite urlEncode_percent_encode.
  apply percent_decode_encode, percent_encode_length.
Qed.

Lemma percent_encode_char_kept c :
  kept c = true -> percent_encode_char c = String c "".
Proof.
  destruct c as [[] [] [] [] [] [] [] []]; intros H; try reflexivity;
    discriminate H.
Qed.

Lemma percent_encode_char_length c :
  (1 <= String.length (percent_encode_char c))%nat
  /\ (String.length (percent_encode_char c) = 1%nat -> kept c = true).
Proof.
  destruct c as [[] [] [] [] [] [] [] []]; vm_compute; split;
    (lia || congruence || discriminate).
Qed.

Lemma percent_encode_same_length s :
  String.length (percent_encode s) = String.length s -> all_chars kept s = true.
Proof.
  induction s as [|c s IH]; [reflexivity|].
  cbn [percent_encode all_chars String.length]. rewrite length_append.
  pose proof (percent_encode_length s) as Hl.
  destruct (percent_encode_char_length c) as [L1 L2].
  intros H. rewrite L2 by lia. apply IH. lia.
Qed.

(** X3.  [urlEncode] returns its input unchanged exactly when the input is
    made of letters, digits and [- _ . ~] only. *)
Theorem urlEncode_identity (s : string) :
  urlEncode s = s <-> all_chars kept s = true.
Proof.
  rewrite urlEncode_percent_encode. split.
  - intros H. apply percent_encode_same_length. now rewrite H.
  - induction s as [|c s IH]; [reflexivity|]. cbn [all_chars percent_encode].
    intros H. apply andb_true_iff in H. destruct H as [Hc Hs].
    now rewrite (percent_encode_char_kept c Hc), (IH Hs).
Qed.

(** X4.  On strings of characters with codes 0..255, [urlEncode] works
    character by character: the encoding of a concatenation is the
    concatenation of the encodings. *)
Theorem urlEncode_append (a b : string) :
  urlEncode (a ++ b) = urlEncode a ++ urlEncode b.
Proof.
  rewrite !urlEncode_percent_encode.
  induction a as [|c a IH]; [reflexivity|].
  cbn [String.append percent_encode]. now rewrite IH, append_assoc.
Qed.

End EncodeExtras.

(** ** The conversion to base64 on any input *)

Section HexExtras.

Lemma band63_range x : (0 <= JS.band x 63 < 64)%Z.
Proof.
  unfold JS.band. rewrite (ToInt32_small 63) by lia.
  change 63%Z with (Z.ones 6). rewrite Z.land_ones by lia.
  change (2 ^ 6)%Z with 64%Z.
  pose proof (Z.mod_pos_bound (JS.ToInt32 x) 64).
  rewrite ToInt32_small; lia.
Qed.

Lemma quad_length i len t j : String.length (quad i len t j) = 1%nat.
Proof.
  unfold quad. destruct (past_input i j len); [reflexivity|].
  pose proof (band63_range (JS.ushr t (6 * (3 - Z.of_nat j)))) as B.
  rewrite (tab_sextet _
             (Z.to_N (JS.band (JS.ushr t (6 * (3 - Z.of_nat j))) 63)));
    [reflexivity|lia|lia].
Qed.

Lemma hex_step_length input i out :
  String.length (hex_step input i out) = (String.length out + 4)%nat.
Proof.
  unfold hex_step. cbv zeta.
  rewrite fold_quad, !length_append, !quad_length. lia.
Qed.

Lemma ceil6_step n : (0 < n)%nat -> ((n + 5) / 6 = S ((n - 6 + 5) / 6))%nat.
Proof.
  intros H. destruct (Nat.lt_ge_cases n 6) as [L|G].
  - replace (n - 6 + 5)%nat with 5%nat by lia.
    do 6 (destruct n as [|n]; [reflexivity || lia|]). lia.
  - replace (n + 5)%nat with (n - 6 + 5 + 1 * 6)%nat by lia.
    rewrite Nat.div_add by discriminate. lia.
Qed.

Lemma hex_loop_length fuel : forall input i out,
  (String.length input - i <= fuel)%nat ->
  String.length (hex_loop fuel input i out)
  = (String.length out + 4 * ((String.length input - i + 5) / 6))%nat.
Proof.
  induction fuel as [|fuel IH]; intros input i out H.
  - rewrite hex_loop_done by lia.
    replace (String.length input - i)%nat with 0%nat by lia. simpl. lia.
  - cbn [hex_loop]. destruct (Nat.ltb_spec i (String.length input)) as [L|G].
    + rewrite IH by lia. rewrite hex_step_length.
      rewrite (ceil6_step (String.length input - i)) by lia.
      replace (String.length input - (i + 6))%nat
        with (String.length input - i - 6)%nat by lia.
      lia.
    + replace (String.length input - i)%nat with 0%nat by lia. simpl. lia.
Qed.

(** X5.  Whatever the input string is, [hexStrToBase64] writes four
    characters for every started group of six input characters; the length
    of its output is a multiple of four, so that the loop of [getSignature]
    that appends [=] never adds anything. *)
Theorem hexStrToBase64_length (input : string) :
  String.length (hexStrToBase64 input)
  = (4 * ((String.length input + 5) / 6))%nat
  /\ Nat.iter (String.length (hexStrToBase64 input) mod 4)
              (fun b64hmac => b64hmac ++ "=") (hexStrToBase64 input)
     = hexStrToBase64 input.
Proof.
  assert (E : String.length (hexStrToBase64 input)
              = (4 * ((String.length input + 5) / 6))%nat).
  { unfold hexStrToBase64. rewrite hex_loop_length by lia.
    rewrite Nat.sub_0_r. reflexivity. }
  split; [exact E|]. rewrite E, Nat.mul_comm, Nat.Div0.mod_mul. reflexivity.
Qed.

Lemma tab_char (k : nat) :
  (k < 64)%nat -> all_chars base64_char (JS.charAt tab k) = true.
Proof.
  intros H. do 64 (destruct k as [|k]; [reflexivity|]). lia.
Qed.

Lemma quad_alphabet i len t j : all_chars base64_char (quad i len t j) = true.
Proof.
  unfold quad. destruct (past_input i j len); [reflexivity|].
  pose proof (band63_range (JS.ushr t (6 * (3 - Z.of_nat j)))) as B.
  apply tab_char. lia.
Qed.

Lemma hex_step_alphabet input i out :
  all_chars base64_char (hex_step input i out)
  = all_chars base64_char out.
Proof.
  unfold hex_step. cbv zeta.
  rewrite fold_quad, !all_chars_append, !quad_alphabet.
  now rewrite !andb_true_r.
Qed.

Lemma hex_loop_alphabet fuel : forall input i out,
  all_chars base64_char (hex_loop fuel input i out)
  = all_chars base64_char out.
Proof.
  induction fuel as [|fuel IH]; intros input i out; [reflexivity|].
  cbn [hex_loop]. destruct (i <? String.length input)%nat; [|reflexivity].
  now rewrite IH, hex_step_alphabet.
Qed.

(** X6.  Whatever the input string is, hexadecimal or not, every character
    [hexStrToBase64] writes is one of the 64 characters of its table or the
    padding character. *)
Theorem hexStrToBase64_alphabet (input : string) :
  all_chars base64_char (hexStrToBase64 input) = true.
Proof. unfold hexStrToBase64. now rewrite hex_loop_alphabet. Qed.

End HexExtras.

(** ** List parameters, value by value *)

Section ListExtras.
Context {Moment : Type}.
Variable toISOString : Moment -> string.
Local Abbreviation serialize := (serialize toISOString).

Lemma serialize_list (K : string) (vs : list string) :
  serialize (ListParameter K vs)
  = combine (map (fun i => list_key K (N.of_nat i)) (seq 1 (List.length vs)))
            vs.
Proof.
  pose proof (list_fold K vs 0 empty) as H. cbn [N.of_nat Nat.add] in H.
  cbn [Amazon.serialize]. rewrite H; [reflexivity|]. intros k [].
Qed.

Lemma combine_snoc {A B} (l1 : list A) (l2 : list B) a b :
  List.length l1 = List.length l2 ->
  combine (app l1 [a]) (app l2 [b]) = app (combine l1 l2) [(a, b)].
Proof.
  revert l2. induction l1 as [|x l1 IH]; intros [|y l2] H; try discriminate.
  - reflexivity.
  - simpl. f_equal. apply IH. now injection H.
Qed.

(** X7.  Pushing a value onto a list parameter that holds [n] values adds
    the one pair [(K.(n+1), v)] after the pairs it serialized before, which
    stay as they were. *)
Theorem push_serialize (K : string) (vs : list string) (v : string) :
  serialize (push (ListParameter K vs) v)
  = app (serialize (ListParameter K vs))
        [(K ++ "." ++ JS.Number_toString (N.of_nat (S (List.length vs))), v)].
Proof.
  cbn [push]. rewrite !serialize_list, length_app. cbn [List.length].
  rewrite Nat.add_1_r, seq_S, map_app. cbn [map].
  rewrite combine_snoc by now rewrite length_map, length_seq.
  reflexivity.
Qed.

Lemma get_numbered K (vs : list string) : forall s i,
  get (combine (map (fun j => list_key K (N.of_nat j))
                    (seq s (List.length vs))) vs)
      (list_key K (N.of_nat (s + i)))
  = nth_error vs i.
Proof.
  induction vs as [|v vs IH]; intros s i.
  - now destruct i.
  - cbn [List.length seq map combine get].
    destruct i as [|i].
    + rewrite Nat.add_0_r, String.eqb_refl. reflexivity.
    + destruct (String.eqb_spec (list_key K (N.of_nat s))
                                (list_key K (N.of_nat (s + S i)))) as [E|_].
      * apply list_key_inj in E. lia.
      * replace (s + S i)%nat with (S s + i)%nat by lia. apply IH.
Qed.

(** X8.  The serialization of a list parameter holds its [i]-th value,
    counting from one, under the key [K.i], and holds nothing under any
    other key. *)
Theorem list_parameter_lookup (K : string) (vs : list string) :
  (forall i, get (serialize (ListParameter K vs))
                 (K ++ "." ++ JS.Number_toString (N.of_nat (S i)))
             = nth_error vs i)
  /\ (forall k, get (serialize (ListParameter K vs)) k <> None ->
        exists i, (i < List.length vs)%nat
                  /\ k = K ++ "." ++ JS.Number_toString (N.of_nat (S i))).
Proof.
  rewrite serialize_list. split.
  - intros i. exact (get_numbered K vs 1 i).
  - intros k H. apply get_In in H.
    assert (forall s,
              In k (map fst (combine (map (fun j => list_key K (N.of_nat j))
                                          (seq s (List.length vs))) vs)) ->
              exists i, (i < List.length vs)%nat
                        /\ k = list_key K (N.of_nat (s + i))) as G.
    { clear H. induction vs as [|v vs IH]; intros s; [intros []|].
      cbn [List.length seq map combine fst In]. intros [<-|H].
      - exists 0%nat. split; [lia|]. now rewrite Nat.add_0_r.
      - destruct (IH (S s) H) as [i [Hi ->]]. exists (S i). split; [lia|].
        f_equal. f_equal. lia. }
    exact (G 1%nat H).
Qed.

End ListExtras.

(** ** The order of the query string *)

Section OrderExtras.
Context {T : Type}.
Implicit Types (d dst src : Dictionary T).

Lemma filter_all {A} (f : A -> bool) (l : list A) :
  Forall (fun x => f x = true) l -> filter f l = l.
Proof. induction 1; simpl; [reflexivity|]. rewrite H. now f_equal. Qed.

Lemma filter_none {A} (f : A -> bool) (l : list A) :
  Forall (fun x => f x = false) l -> filter f l = [].
Proof. induction 1; simpl; [reflexivity|]. now rewrite H. Qed.

Lemma keys_no_index d :
  Forall (fun k => is_array_index k = false) (map fst d) -> keys d = map fst d.
Proof.
  intros H. unfold keys. rewrite (filter_none _ _ H). cbn [JS.sort_by app].
  apply filter_all. eapply Forall_impl; [|exact H]. intros k ->. reflexivity.
Qed.

Lemma fold_assign_fresh src : forall (l : list (string * T)) dst,
  NoDup (map fst l) ->
  (forall k v, In (k, v) l ->
     get src k = Some v /\ get dst k = None
     /\ String.eqb k "__proto__" = false) ->
  fold_left
    (fun o k => match get src k with Some v => set o k v | None => o end)
    (map fst l) dst
  = app dst l.
Proof.
  induction l as [|[k v] l IH]; intros dst Hn H; cbn [map fst fold_left].
  - now rewrite app_nil_r.
  - destruct (H k v (or_introl eq_refl)) as [Hs [Hd Hp]].
    rewrite Hs, (set_fresh dst k v Hp Hd).
    inversion Hn as [|? ? Hk Hl]; subst.
    rewrite IH; [now rewrite <- app_assoc|exact Hl|].
    intros k' v' Hin. destruct (H k' v' (or_intror Hin)) as [Hs' [Hd' Hp']].
    repeat split; auto.
    rewrite get_app, Hd'. cbn [get].
    destruct (String.eqb_spec k k') as [->|N]; [|reflexivity].
    exfalso. apply Hk. apply in_map_iff. exists (k', v'). auto.
Qed.

Lemma get_of_In d k (v : T) : wf d -> In (k, v) d -> get d k = Some v.
Proof.
  unfold wf. induction d as [|[k0 v0] d IH]; intros Hn Hin; [destruct Hin|].
  destruct Hin as [E|Hin].
  - injection E as -> ->. simpl. now rewrite String.eqb_refl.
  - inversion Hn as [|? ? Hk Hd]; subst. simpl.
    destruct (String.eqb_spec k0 k) as [->|N].
    + exfalso. apply Hk. apply in_map_iff. exists (k, v). auto.
    + now apply IH.
Qed.

(** Extending by a dictionary whose keys are new appends its properties in
    their order. *)
Lemma extend_fresh dst src :
  wf src ->
  Forall (fun k => is_array_index k = false) (map fst src) ->
  (forall k, In k (map fst src) ->
             get dst k = None /\ String.eqb k "__proto__" = false) ->
  extend dst src = app dst src.
Proof.
  intros W I H. unfold extend. rewrite (keys_no_index src I).
  apply fold_assign_fresh; [exact W|].
  intros k v Hin. assert (In k (map fst src)) as Hk.
  { apply in_map_iff. exists (k, v). auto. }
  destruct (H k Hk). repeat split; auto. now apply get_of_In.
Qed.
End OrderExtras.

Section CanonicalOrder.
Context {Moment : Type}.
Variable toISOString : Moment -> string.
Variable hmac_sha256 : string -> string -> list byte.
Local Abbreviation Param := (Param Moment).
Local Abbreviation Request := (Request Moment).
Local Abbreviation serialize := (serialize toISOString).
Local Abbreviation canonical := (canonical toISOString).
Local Abbreviation lookup := (lookup toISOString).
Local Abbreviation all_keys := (all_keys toISOString).
Local Abbreviation getStringToSign := (getStringToSign toISOString).
Local Abbreviation getQueryString := (getQueryString toISOString).
Local Abbreviation getSignature := (getSignature toISOString hmac_sha256).
Local Abbreviation send := (send toISOString hmac_sha256).

Lemma serialize_key_not_proto (p : Param) k :
  In k (map fst (serialize p)) -> String.eqb k "__proto__" = false.
Proof.
  intros H. apply get_In in H.
  destruct (String.eqb_spec k "__proto__") as [->|]; [|reflexivity].
  now rewrite serialize_no_proto in H.
Qed.

Lemma fold_extend_fresh (ps : list Param) : forall d0,
  NoDup (app (map fst d0) (all_keys ps)) ->
  Forall (fun k => is_array_index k = false) (all_keys ps) ->
  fold_left (fun input param => extend input (serialize param)) ps d0
  = app d0 (flat_map serialize ps).
Proof.
  induction ps as [|p ps IH]; intros d0 Hn Hi; cbn [fold_left flat_map].
  - now rewrite app_nil_r.
  - unfold Spec.all_keys in *. cbn [flat_map] in Hn, Hi.
    apply Forall_app in Hi. destruct Hi as [Hi1 Hi2].
    rewrite extend_fresh.
    + rewrite IH; [now rewrite <- app_assoc| |exact Hi2].
      now rewrite map_app, <- app_assoc.
    + apply serialize_wf.
    + exact Hi1.
    + intros k Hk. split; [|now apply (serialize_key_not_proto p)].
      apply get_None. intros Hd.
      apply (NoDup_app_disjoint _ _ Hn k Hd). apply in_app_iff. now left.
Qed.

Lemma canonical_fresh (ps : list Param) :
  NoDup (all_keys ps) ->
  Forall (fun k => is_array_index k = false) (all_keys ps) ->
  canonical ps = flat_map serialize ps.
Proof.
  intros Hn Hi. unfold Amazon.canonical.
  now rewrite (fold_extend_fresh ps empty Hn Hi).
Qed.

Lemma all_keys_flat (ps : list Param) :
  map fst (flat_map serialize ps) = all_keys ps.
Proof.
  unfold Spec.all_keys. induction ps as [|p ps IH]; [reflexivity|].
  cbn [flat_map]. now rewrite map_app, IH.
Qed.

Lemma pair_of_In (d : Dictionary string) k v :
  wf d -> In (k, v) d -> pair_of d k = pair_text (k, v).
Proof.
  intros W H. unfold pair_of, pair_text, read.
  now rewrite (get_of_In d k v W H).
Qed.

Lemma map_pair_of_wf (d : Dictionary string) :
  wf d -> map (pair_of d) (map fst d) = map pair_text d.
Proof.
  intros W. rewrite map_map. apply map_ext_in. intros [k v] H.
  now apply pair_of_In.
Qed.

Lemma query_in_order (ps : list Param) :
  NoDup (all_keys ps) ->
  Forall (fun k => is_array_index k = false) (all_keys ps) ->
  map (pair_of (canonical ps)) (keys (canonical ps))
  = map pair_text (flat_map serialize ps).
Proof.
  intros Hn Hi. rewrite keys_no_index.
  - rewrite map_pair_of_wf by apply canonical_wf.
    now rewrite canonical_fresh.
  - rewrite canonical_fresh by assumption. now rewrite all_keys_flat.
Qed.

(** X9.  When no key is serialized twice and no key is an array index,
    the query string lists the pairs in the order in which the parameters
    were added, each parameter giving its pairs in the order of its
    serialization. *)
Theorem query_string_in_insertion_order (r : Request) :
  NoDup (all_keys (parameters r)) ->
  Forall (fun k => is_array_index k = false) (all_keys (parameters r)) ->
  getQueryString r
  = String.concat "&" (map pair_text (flat_map serialize (parameters r))).
Proof.
  intros Hn Hi. rewrite getQueryString_eq. now rewrite query_in_order.
Qed.

Lemma all_keys_app (ps qs : list Param) :
  all_keys (app ps qs) = app (all_keys ps) (all_keys qs).
Proof. unfold Spec.all_keys. apply flat_map_app. Qed.

Lemma send_in_order (r : Request) :
  NoDup (all_keys (parameters r)) ->
  Forall (fun k => is_array_index k = false) (all_keys (parameters r)) ->
  ~ In "Signature" (all_keys (parameters r)) ->
  url (snd (send r))
  = "https://" ++ host (credentials r) ++ endpoint r ++ "?"
    ++ String.concat "&"
         (app (map pair_text (flat_map serialize (parameters r)))
              ["Signature=" ++ urlEncode (getSignature r)]).
Proof.
  intros Hn Hi Hs.
  change (url (snd (send r)))
    with ("https://" ++ host (credentials r) ++ endpoint r ++ "?"
          ++ getQueryString (fst (send r))).
  rewrite getQueryString_eq, query_in_order.
  - rewrite send_parameters, flat_map_app, map_app. reflexivity.
  - rewrite send_parameters, all_keys_app. cbn.
    apply NoDup_app; [exact Hn|repeat constructor; simpl; tauto|].
    intros k Hk [<-|[]]. contradiction.
  - rewrite send_parameters, all_keys_app. apply Forall_app. split; [exact Hi|].
    repeat constructor.
Qed.

End CanonicalOrder.

(** ** Adding parameters and sending *)

Section RequestExtras.
Context {Moment : Type}.
Variable toISOString : Moment -> string.
Variable hmac_sha256 : string -> string -> list byte.
Local Abbreviation Param := (Param Moment).
Local Abbreviation Request := (Request Moment).
Local Abbreviation serialize := (serialize toISOString).
Local Abbreviation canonical := (canonical toISOString).
Local Abbreviation lookup := (lookup toISOString).
Local Abbreviation all_keys := (all_keys toISOString).
Local Abbreviation getStringToSign := (getStringToSign toISOString).
Local Abbreviation getQueryString := (getQueryString toISOString).
Local Abbreviation getSignature := (getSignature toISOString hmac_sha256).
Local Abbreviation send := (send toISOString hmac_sha256).

Lemma canonical_snoc (ps : list Param) (p : Param) :
  canonical (app ps [p]) = extend (canonical ps) (serialize p).
Proof. unfold Amazon.canonical. now rewrite fold_left_app. Qed.

(** X10.  Adding a parameter leaves endpoint and credentials alone and
    changes the mapping that is signed and sent only at the keys the
    parameter serializes, where its values replace the earlier ones. *)
Theorem addParam_overrides (r : Request) (p : Param) :
  endpoint (addParam r p) = endpoint r
  /\ credentials (addParam r p) = credentials r
  /\ forall k,
       get (canonical (parameters (addParam r p))) k
       = match get (serialize p) k with
         | Some v => Some v
         | None => get (canonical (parameters r)) k
         end.
Proof.
  repeat split. intros k. cbn [addParam parameters].
  rewrite canonical_snoc. apply get_extend_serialize.
Qed.

(** X11.  A scalar parameter whose key is [__proto__] serializes to the
    empty mapping: adding it changes neither the string-to-sign nor the
    query string. *)
Theorem proto_parameter_dropped (r : Request) (v e : string) :
  serialize (StringParameter "__proto__" v) = empty
  /\ getStringToSign (addParam r (StringParameter "__proto__" v)) e
     = getStringToSign r e
  /\ getQueryString (addParam r (StringParameter "__proto__" v))
     = getQueryString r.
Proof.
  assert (E : canonical
                (parameters (addParam r (StringParameter "__proto__" v)))
              = canonical (parameters r)).
  { cbn [addParam parameters]. rewrite canonical_snoc. reflexivity. }
  split; [reflexivity|].
  rewrite !getStringToSign_eq, !getQueryString_eq, E. split; reflexivity.
Qed.

(** X12.  Two requests get the same signature exactly when the keyed
    digests of their strings-to-sign are the same bytes: the conversion of
    the digest to base64 loses nothing. *)
Theorem signatures_equal_iff_digests_equal (r r' : Request) :
  getSignature r = getSignature r'
  <-> hmac_sha256 (secretKey (credentials r)) (getStringToSign r (endpoint r))
      = hmac_sha256 (secretKey (credentials r'))
                    (getStringToSign r' (endpoint r')).
Proof.
  rewrite !getSignature_eq. split; [apply base64_encode_inj|now intros ->].
Qed.

Lemma keys_snoc {T} (d : Dictionary T) k (v : T) :
  is_array_index k = false -> keys (app d [(k, v)]) = app (keys d) [k].
Proof.
  intros H. unfold keys. rewrite map_app, !filter_app. cbn [map fst filter].
  rewrite H. cbn [negb]. now rewrite app_nil_r, app_assoc.
Qed.

Lemma canonical_signed (ps : list Param) (sig : string) :
  get (canonical ps) "Signature" = None ->
  canonical (app ps [StringParameter "Signature" sig])
  = app (canonical ps) [("Signature", sig)].
Proof.
  intros H. rewrite canonical_snoc.
  change (extend (canonical ps) (serialize (StringParameter "Signature" sig)))
    with (set (canonical ps) "Signature" sig).
  now apply set_fresh.
Qed.

Lemma pair_of_app_l (d d' : Dictionary string) k :
  get d k <> None -> pair_of (app d d') k = pair_of d k.
Proof.
  intros H. unfold pair_of, read. rewrite get_app.
  destruct (get d k); [reflexivity|congruence].
Qed.

(** X13.  What is signed is what is sent: when the request has no
    [Signature] key before it is sent, the query string of the POST is made
    of the pairs of the string-to-sign, in the enumeration order of the
    mapping instead of the sorted one, followed by the pair of the
    signature. *)
Theorem sent_pairs_are_signed_pairs (r : Request) :
  get (canonical (parameters r)) "Signature" = None ->
  let input := canonical (parameters r) in
  url (snd (send r))
  = "https://" ++ host (credentials r) ++ endpoint r ++ "?"
    ++ String.concat "&"
         (app (map (pair_of input) (keys input))
              ["Signature=" ++ urlEncode (getSignature r)])
  /\ getStringToSign r (endpoint r)
     = String.concat (String "010" "")
         ["POST"; host (credentials r); endpoint r;
          String.concat "&" (map (pair_of input) (JS.Array_sort (keys input)))]
  /\ Permutation (map (pair_of input) (keys input))
                 (map (pair_of input) (JS.Array_sort (keys input))).
Proof.
  intros H input. repeat split.
  - change (url (snd (send r)))
      with ("https://" ++ host (credentials r) ++ endpoint r ++ "?"
            ++ getQueryString (fst (send r))).
    rewrite getQueryString_eq, send_parameters, (canonical_signed _ _ H).
    fold input. rewrite keys_snoc by reflexivity. rewrite map_app.
    rewrite (map_ext_in _ (pair_of input))
      by (intros k Hk; apply pair_of_app_l; now apply keys_In).
    cbn [map]. unfold pair_of at 2, read. fold input in H.
    rewrite get_app, H. reflexivity.
  - now rewrite getStringToSign_eq.
  - apply Permutation_map. symmetry. apply sort_by_perm.
Qed.

End RequestExtras.

(** ** The outcomes of the response handler and of the endpoint methods *)

Section ResponseFacts.

Lemma carries_error_no_report (result : JsValue) :
  has result "ErrorResponse" = false -> carries_error result.
Proof.
  intros H props report -> G. cbn [has] in H. rewrite G in H. discriminate.
Qed.

(** The callback given to the parser throws, reports an error of the
    parser or of the API, or hands the parsed body on. *)
Lemma on_parsed_cases (perr result : JsValue) :
  (on_parsed perr result = TypeError
   /\ truthy perr = false /\ ~ carries_error result)
  \/ (exists e, on_parsed perr result = Normal [(e, JUndefined)]
                /\ core_error e
                /\ (truthy perr = false -> carries_error result))
  \/ (on_parsed perr result = Normal [(JNull, result)]
      /\ truthy perr = false /\ has result "ErrorResponse" = false).
Proof.
  unfold on_parsed. destruct (truthy perr) eqn:P.
  - right. left. eexists. split; [reflexivity|]. split; [|discriminate].
    eexists _, _. split; [reflexivity|]. cbn. auto.
  - destruct (has result "ErrorResponse") eqn:Hs; [|right; right; auto].
    destruct result as [| |s|items|props]; try discriminate Hs.
    cbn [has] in Hs. cbn [member].
    destruct (get props "ErrorResponse") as [report|] eqn:G; [|discriminate].
    cbn [bind].
    assert (Hno : forall error,
               member report "Error" = Normal error ->
               error = JUndefined \/ error = JNull ->
               ~ carries_error (JObject props)).
    { intros error M N C.
      destruct (C props report eq_refl G) as [e [M' [N1 N2]]].
      rewrite M in M'. injection M' as <-. destruct N; contradiction. }
    assert (Hyes : forall error,
               member report "Error" = Normal error ->
               error <> JUndefined -> error <> JNull ->
               carries_error (JObject props)).
    { intros error M N1 N2 props' report' E G'. injection E as <-.
      rewrite G in G'. injection G' as <-. exists error. auto. }
    destruct (member report "Error") as [error|] eqn:M.
    + cbn [bind]. destruct error as [| |s|items|eprops]; cbn [member bind].
      * left. repeat split. apply (Hno JUndefined); auto.
      * left. repeat split. apply (Hno JNull); auto.
      * right. left. eexists. split; [reflexivity|]. split.
        -- eexists _, _. split; [reflexivity|]. cbn. auto.
        -- intros _. apply (Hyes (JString s)); [reflexivity|discriminate..].
      * right. left. eexists. split; [reflexivity|]. split.
        -- eexists _, _. split; [reflexivity|]. cbn. auto.
        -- intros _. apply (Hyes (JArray items)); [reflexivity|discriminate..].
      * right. left. destruct (get eprops "Message");
          (eexists; split; [reflexivity|]; split;
           [eexists _, _; split; [reflexivity|]; cbn; auto
           |intros _; apply (Hyes (JObject eprops));
            [reflexivity|discriminate..]]).
    + left. repeat split. intros C.
      destruct (C props report eq_refl G) as [e [M' _]]. congruence.
Qed.

Lemma core_error_truthy (e : JsValue) : core_error e -> truthy e = true.
Proof. intros [origin [fields [-> _]]]. reflexivity. Qed.

End ResponseFacts.

Section ResponseExtras.

Variable xmlParse : JsValue -> JsValue * JsValue.
Variable construct : JsValue -> Completion JsValue.

Local Abbreviation on_response := (on_response xmlParse).

(** X14.  The callback of the POST throws, before any call of the caller's
    callback, exactly when the HTTP call reports no error, the parser
    reports none, and the parsed body has an [ErrorResponse] property
    without an [Error] under it that is neither null nor undefined. *)
Theorem response_throws_exactly (err httpResponse body : JsValue) :
  on_response err httpResponse body = TypeError
  <-> truthy err = false /\ truthy (fst (xmlParse body)) = false
      /\ ~ carries_error (snd (xmlParse body)).
Proof.
  unfold Amazon.on_response. destruct (truthy err) eqn:E.
  - split; [discriminate|]. intros [H _]. discriminate.
  - destruct (xmlParse body) as [perr result]. cbn [fst snd].
    destruct (on_parsed_cases perr result)
      as [[H1 [H2 H3]]|[[e [H1 [H2 H3]]]|[H1 [H2 H3]]]]; rewrite H1.
    + split; auto.
    + split; [discriminate|]. intros [_ [P C]]. destruct (C (H3 P)).
    + split; [discriminate|]. intros [_ [_ C]].
      destruct (C (carries_error_no_report _ H3)).
Qed.

(** X15.  The callback of the POST either throws, or calls the caller's
    callback exactly once: with an error object of one of the three
    origins and no result, or with [null] as error and the parsed body as
    result, the latter only when neither the HTTP call nor the parser
    reports an error and the body has no [ErrorResponse] property.  It
    never passes both an error and a result. *)
Theorem response_outcomes (err httpResponse body : JsValue) :
  on_response err httpResponse body = TypeError
  \/ (exists e, on_response err httpResponse body = Normal [(e, JUndefined)]
                /\ core_error e /\ truthy e = true)
  \/ (on_response err httpResponse body = Normal [(JNull, snd (xmlParse body))]
      /\ truthy err = false /\ truthy (fst (xmlParse body)) = false
      /\ has (snd (xmlParse body)) "ErrorResponse" = false).
Proof.
  unfold Amazon.on_response. destruct (truthy err) eqn:E.
  - right. left. eexists. split; [reflexivity|]. split; [|reflexivity].
    eexists _, _. split; [reflexivity|]. cbn. auto.
  - destruct (xmlParse body) as [perr result]. cbn [fst snd].
    destruct (on_parsed_cases perr result)
      as [[H1 _]|[[e [H1 [H2 _]]]|[H1 [H2 H3]]]].
    + left. exact H1.
    + right. left. exists e. auto using core_error_truthy.
    + right. right. auto.
Qed.

(** X16.  What the caller of an endpoint method sees: the callback an
    endpoint method gives to [send] hands an error of the core on
    unchanged, with no result and without running the constructor of the
    typed result; it wraps the parsed body with the constructor on success;
    and it throws when the core throws or when the constructor does. *)
Theorem endpoint_outcomes (err httpResponse body : JsValue) :
  (deliver construct (on_response err httpResponse body) = TypeError
   /\ (on_response err httpResponse body = TypeError
       \/ (on_response err httpResponse body
           = Normal [(JNull, snd (xmlParse body))]
           /\ construct (snd (xmlParse body)) = TypeError)))
  \/ (exists e, on_response err httpResponse body = Normal [(e, JUndefined)]
                /\ truthy e = true
                /\ deliver construct (on_response err httpResponse body)
                   = Normal [(e, JUndefined)])
  \/ (exists typed,
        on_response err httpResponse body
        = Normal [(JNull, snd (xmlParse body))]
        /\ construct (snd (xmlParse body)) = Normal typed
        /\ deliver construct (on_response err httpResponse body)
           = Normal [(JNull, typed)]).
Proof.
  assert (Herr : forall e, truthy e = true ->
            deliver construct (Normal [(e, JUndefined)])
            = Normal [(e, JUndefined)]).
  { intros e T. cbn [deliver bind deliver_all fst snd].
    unfold endpoint_callback. rewrite T. reflexivity. }
  assert (Hok : forall result,
            deliver construct (Normal [(JNull, result)])
            = match construct result with
              | Normal typed => Normal [(JNull, typed)]
              | TypeError => TypeError
              end).
  { intros result. cbn [deliver bind deliver_all fst snd].
    unfold endpoint_callback. cbn [truthy].
    destruct (construct result); reflexivity. }
  unfold Amazon.on_response. destruct (truthy err) eqn:E.
  - right. left. eexists. split; [reflexivity|]. split; [reflexivity|].
    now apply Herr.
  - destruct (xmlParse body) as [perr result]. cbn [fst snd].
    destruct (on_parsed_cases perr result)
      as [[H1 _]|[[e [H1 [H2 _]]]|[H1 _]]]; rewrite H1.
    + left. split; [reflexivity|now left].
    + right. left. exists e. pose proof (core_error_truthy _ H2). auto.
    + rewrite Hok. destruct (construct result) as [typed|] eqn:C.
      * right. right. exists typed. auto.
      * left. split; [reflexivity|]. right. auto.
Qed.

End ResponseExtras.

(** ** The three endpoint methods *)

Lemma digits_no_dot u : occurs "." (NilEmpty.string_of_uint u) = false.
Proof. induction u; simpl; auto. Qed.

Lemma Number_toString_no_dot n : occurs "." (JS.Number_toString n) = false.
Proof.
  unfold JS.Number_toString, NilZero.string_of_uint.
  destruct (N.to_uint n); try apply digits_no_dot. reflexivity.
Qed.

Lemma dotted_not_index k : occurs "." k = true -> is_array_index k = false.
Proof.
  intros H. unfold is_array_index.
  destruct (NilZero.uint_of_string k) as [u|]; [|reflexivity].
  destruct (String.eqb_spec (JS.Number_toString (N.of_uint u)) k) as [E|];
    [|reflexivity].
  rewrite <- E, Number_toString_no_dot in H. discriminate.
Qed.

Lemma list_key_dotted K s : occurs "." (K ++ "." ++ s) = true.
Proof. rewrite occurs_append. simpl. apply orb_true_r. Qed.

Lemma combine_map_l {A B C} (g : A -> C) (l : list A) (vs : list B) :
  combine (map g l) vs = map (fun p => (g (fst p), snd p)) (combine l vs).
Proof.
  revert vs. induction l as [|a l IH]; intros [|v vs]; simpl; try reflexivity.
  now rewrite IH.
Qed.

Ltac concrete_NoDup :=
  repeat (constructor; [simpl; intuition discriminate|]); constructor.

Section Callers.
Context {Moment : Type}.
Variable toISOString : Moment -> string.
Variable hmac_sha256 : string -> string -> list byte.
Local Abbreviation Param := (Param Moment).
Local Abbreviation Request := (Request Moment).
Local Abbreviation serialize := (serialize toISOString).
Local Abbreviation all_keys := (all_keys toISOString).
Local Abbreviation getSignature := (getSignature toISOString hmac_sha256).
Local Abbreviation send := (send toISOString hmac_sha256).

Lemma list_keys_form K vs k :
  In k (map fst (serialize (ListParameter K vs))) ->
  exists i, k = K ++ "." ++ JS.Number_toString i.
Proof.
  rewrite serialize_list. intros H. apply in_map_iff in H.
  destruct H as [[k' v] [<- H]]. apply in_combine_l in H.
  apply in_map_iff in H. destruct H as [i [<- _]]. cbn [fst].
  eexists. reflexivity.
Qed.

(** The numbered pairs of a list parameter, as text. *)
Lemma list_pairs_text K vs :
  map pair_text (serialize (ListParameter K vs))
  = map (fun iv => K ++ "." ++ JS.Number_toString (N.of_nat (fst iv)) ++ "="
                   ++ urlEncode (snd iv))
        (combine (seq 1 (List.length vs)) vs).
Proof.
  rewrite serialize_list, combine_map_l, map_map. apply map_ext.
  intros [i v]. unfold pair_text, list_key. cbn [fst snd].
  now rewrite !append_assoc.
Qed.

(** A request whose serializations are fixed pairs around the pairs of at
    most one list parameter. *)
Lemma send_around_list (r : Request) (F1 F2 L : Dictionary string)
    (K : string) :
  flat_map serialize (parameters r) = app F1 (app L F2) ->
  NoDup (map fst (app F1 F2)) ->
  Forall (fun k => is_array_index k = false) (map fst (app F1 F2)) ->
  ~ In "Signature" (map fst (app F1 F2)) ->
  wf L ->
  (forall k, In k (map fst L) -> exists s, k = K ++ "." ++ s) ->
  (forall s, ~ In (K ++ "." ++ s) ("Signature" :: map fst (app F1 F2))) ->
  url (snd (send r))
  = "https://" ++ host (credentials r) ++ endpoint r ++ "?"
    ++ String.concat "&"
         (app (map pair_text F1)
              (app (map pair_text L)
                   (app (map pair_text F2)
                        ["Signature=" ++ urlEncode (getSignature r)]))).
Proof.
  intros E Hn Hi Hs W Hf Hd.
  assert (Ek : all_keys (parameters r)
               = app (map fst F1) (app (map fst L) (map fst F2))).
  { rewrite <- all_keys_flat, E, !map_app. reflexivity. }
  rewrite map_app in Hn, Hi, Hs.
  rewrite (send_in_order toISOString hmac_sha256 r).
  - rewrite E, !map_app, <- !app_assoc. reflexivity.
  - rewrite Ek. eapply Permutation_NoDup; [apply Permutation_app_swap_app|].
    apply NoDup_app; [exact W|exact Hn|].
    intros k Hk Hk'. destruct (Hf k Hk) as [s ->].
    apply (Hd s). right. now rewrite map_app.
  - rewrite Ek. apply Forall_app in Hi. destruct Hi as [Hi1 Hi2].
    apply Forall_app. split; [exact Hi1|].
    apply Forall_app. split; [|exact Hi2].
    apply Forall_forall. intros k Hk. destruct (Hf k Hk) as [s ->].
    apply dotted_not_index, list_key_dotted.
  - rewrite Ek. intros H. apply in_app_iff in H. destruct H as [H|H].
    + apply Hs. apply in_app_iff. now left.
    + apply in_app_iff in H. destruct H as [H|H].
      * destruct (Hf _ H) as [s Es]. apply (Hd s). left. exact Es.
      * apply Hs. apply in_app_iff. now right.
Qed.

(** X17.  The URL [Orders.listOrders] posts to: the host of the
    credentials, the endpoint of the orders API and the pairs in this
    order, the marketplace identifiers numbered from one and the signature
    last.  [CreatedAfter] and [MarketplaceId.Id] are the only options
    sent. *)
Theorem listOrders_url (mws : MWS) (options : ListOrdersRequest Moment)
    (now : Moment) :
  let c := mws_credentials mws in
  let r := listOrders_request mws options now in
  url (snd (send r))
  = "https://" ++ host c ++ "/Orders/2013-09-01" ++ "?"
    ++ String.concat "&"
         (app ["AWSAccessKeyId=" ++ urlEncode (awsAccountId c);
               "SignatureMethod=HmacSHA256";
               "SignatureVersion=2";
               "Timestamp=" ++ urlEncode (toISOString now);
               "Action=ListOrders";
               "SellerId=" ++ urlEncode (sellerId c);
               "CreatedAfter="
               ++ urlEncode (toISOString (CreatedAfter options))]
              (app (map (fun iv =>
                           "MarketplaceId.Id."
                           ++ JS.Number_toString (N.of_nat (fst iv)) ++ "="
                           ++ urlEncode (snd iv))
                        (combine
                           (seq 1 (List.length (MarketplaceId_Id options)))
                           (MarketplaceId_Id options)))
                   ["Version=2013-09-01";
                    "Signature=" ++ urlEncode (getSignature r)])).
Proof.
  intros c r.
  rewrite (send_around_list r
             [("AWSAccessKeyId", awsAccountId c);
              ("SignatureMethod", "HmacSHA256");
              ("SignatureVersion", "2");
              ("Timestamp", toISOString now);
              ("Action", "ListOrders");
              ("SellerId", sellerId c);
              ("CreatedAfter", toISOString (CreatedAfter options))]
             [("Version", "2013-09-01")]
             (serialize (ListParameter "MarketplaceId.Id"
                                       (MarketplaceId_Id options)))
             "MarketplaceId.Id").
  - rewrite list_pairs_text. reflexivity.
  - reflexivity.
  - cbn [map fst app]. concrete_NoDup.
  - cbn [map fst app]. repeat constructor.
  - cbn [map fst app In]. intuition discriminate.
  - apply serialize_wf.
  - intros k Hk. destruct (list_keys_form _ _ _ Hk) as [i ->]. eauto.
  - intros s. cbn [map fst app In String.append]. intuition discriminate.
Qed.

(** X18.  The URL [Orders.listOrderItems] posts to. *)
Theorem listOrderItems_url (mws : MWS) (options : ListOrderItemsRequest)
    (now : Moment) :
  let c := mws_credentials mws in
  let r := listOrderItems_request mws options now in
  url (snd (send r))
  = "https://" ++ host c ++ "/Orders/2013-09-01" ++ "?"
    ++ String.concat "&"
         ["AWSAccessKeyId=" ++ urlEncode (awsAccountId c);
          "SignatureMethod=HmacSHA256";
          "SignatureVersion=2";
          "Timestamp=" ++ urlEncode (toISOString now);
          "Action=ListOrderItems";
          "SellerId=" ++ urlEncode (sellerId c);
          "Version=2013-09-01";
          "AmazonOrderId=" ++ urlEncode (AmazonOrderId options);
          "Signature=" ++ urlEncode (getSignature r)].
Proof.
  intros c r.
  rewrite (send_around_list r
             [("AWSAccessKeyId", awsAccountId c);
              ("SignatureMethod", "HmacSHA256");
              ("SignatureVersion", "2");
              ("Timestamp", toISOString now);
              ("Action", "ListOrderItems");
              ("SellerId", sellerId c);
              ("Version", "2013-09-01");
              ("AmazonOrderId", AmazonOrderId options)]
             [] [] "").
  - reflexivity.
  - reflexivity.
  - cbn [map fst app]. concrete_NoDup.
  - cbn [map fst app]. repeat constructor.
  - cbn [map fst app In]. intuition discriminate.
  - constructor.
  - intros k [].
  - intros s. cbn [map fst app In String.append]. intuition discriminate.
Qed.

(** X19.  The URL [Reports.requestReport] posts to: the seller identifier
    goes under [Merchant], and the pairs of [StartDate], [EndDate],
    [ReportOptions] and of the numbered marketplace identifiers are there
    exactly when the options have the property. *)
Theorem requestReport_url (mws : MWS) (options : RequestReportRequest Moment)
    (now : Moment) :
  let c := mws_credentials mws in
  let r := requestReport_request mws options now in
  url (snd (send r))
  = "https://" ++ host c ++ "/" ++ "?"
    ++ String.concat "&"
         (app ["AWSAccessKeyId=" ++ urlEncode (awsAccountId c);
               "SignatureMethod=HmacSHA256";
               "SignatureVersion=2";
               "Timestamp=" ++ urlEncode (toISOString now);
               "Action=RequestReport";
               "Merchant=" ++ urlEncode (sellerId c);
               "Version=2009-01-01";
               "ReportType=" ++ urlEncode (ReportType options)]
         (app match StartDate options with
              | Some d => ["StartDate=" ++ urlEncode (toISOString d)]
              | None => []
              end
         (app match EndDate options with
              | Some d => ["EndDate=" ++ urlEncode (toISOString d)]
              | None => []
              end
         (app match ReportOptions options with
              | Some o => ["ReportOptions=" ++ urlEncode o]
              | None => []
              end
         (app match MarketplaceIdList options with
              | Some ids =>
                  map (fun iv =>
                         "MarketplaceIdList.Id."
                         ++ JS.Number_toString (N.of_nat (fst iv)) ++ "="
                         ++ urlEncode (snd iv))
                      (combine (seq 1 (List.length ids)) ids)
              | None => []
              end
              ["Signature=" ++ urlEncode (getSignature r)]))))).
Proof.
  intros c r.
  rewrite (send_around_list r
             (app [("AWSAccessKeyId", awsAccountId c);
                   ("SignatureMethod", "HmacSHA256");
                   ("SignatureVersion", "2");
                   ("Timestamp", toISOString now);
                   ("Action", "RequestReport");
                   ("Merchant", sellerId c);
                   ("Version", "2009-01-01");
                   ("ReportType", ReportType options)]
             (app match StartDate options with
                  | Some d => [("StartDate", toISOString d)]
                  | None => []
                  end
             (app match EndDate options with
                  | Some d => [("EndDate", toISOString d)]
                  | None => []
                  end
                  match ReportOptions options with
                  | Some o => [("ReportOptions", o)]
                  | None => []
                  end)))
             []
             match MarketplaceIdList options with
             | Some ids => serialize (ListParameter "MarketplaceIdList.Id" ids)
             | None => []
             end
             "MarketplaceIdList.Id").
  - assert (Hc : credentials r = c /\ endpoint r = "/").
    { unfold r, requestReport_request.
      destruct (StartDate options), (EndDate options), (ReportOptions options),
        (MarketplaceIdList options); split; reflexivity. }
    destruct Hc as [-> ->].
    destruct (MarketplaceIdList options) as [ids|];
      [rewrite list_pairs_text|];
      destruct (StartDate options), (EndDate options), (ReportOptions options);
      reflexivity.
  - unfold r, requestReport_request.
    destruct (StartDate options), (EndDate options), (ReportOptions options),
      (MarketplaceIdList options); reflexivity.
  - destruct (StartDate options), (EndDate options), (ReportOptions options);
      cbn [map fst app]; concrete_NoDup.
  - destruct (StartDate options), (EndDate options), (ReportOptions options);
      cbn [map fst app]; repeat constructor.
  - destruct (StartDate options), (EndDate options), (ReportOptions options);
      cbn [map fst app In]; intuition discriminate.
  - destruct (MarketplaceIdList options); [apply serialize_wf|constructor].
  - intros k Hk. destruct (MarketplaceIdList options); [|destruct Hk].
    destruct (list_keys_form _ _ _ Hk) as [i ->]. eauto.
  - intros s.
    destruct (StartDate options), (EndDate options), (ReportOptions options);
      cbn [map fst app In String.append]; intuition discriminate.
Qed.

End Callers.

Section SortedFacts.

Lemma StronglySorted_app_inv {A} (R : A -> A -> Prop) (l1 l2 : list A) :
  StronglySorted R (app l1 l2) ->
  StronglySorted R l1 /\ StronglySorted R l2
  /\ forall a b, In a l1 -> In b l2 -> R a b.
Proof.
  induction l1 as [|x l1 IH]; cbn [app]; intros H.
  - repeat split; [constructor|exact H|intros a b []].
  - inversion H as [|? ? Hs Hx]; subst. destruct (IH Hs) as [S1 [S2 S3]].
    apply Forall_app in Hx. destruct Hx as [Hx1 Hx2]. repeat split.
    + now constructor.
    + exact S2.
    + intros a b [<-|Ha] Hb; [|now apply S3].
      now apply (proj1 (Forall_forall _ _) Hx2).
Qed.

Lemma StronglySorted_app {A} (R : A -> A -> Prop) (l1 l2 : list A) :
  StronglySorted R l1 -> StronglySorted R l2 ->
  (forall a b, In a l1 -> In b l2 -> R a b) ->
  StronglySorted R (app l1 l2).
Proof.
  induction 1 as [|x l1 Hs IH Hx]; intros S2 H; cbn [app]; [exact S2|].
  constructor.
  - apply IH; [exact S2|]. intros a b Ha. apply H. now right.
  - apply Forall_app. split; [exact Hx|].
    apply Forall_forall. intros b Hb. apply H; [now left|exact Hb].
Qed.

End SortedFacts.

Ltac lex_concrete := apply lex_lt_compare; reflexivity.

Ltac sorted_concrete :=
  repeat (constructor;
          [|repeat (constructor; [lex_concrete|]); constructor]);
  constructor.

Section CallerSigning.
Context {Moment : Type}.
Variable toISOString : Moment -> string.
Variable hmac_sha256 : string -> string -> list byte.
Local Abbreviation Param := (Param Moment).
Local Abbreviation Request := (Request Moment).
Local Abbreviation serialize := (serialize toISOString).
Local Abbreviation canonical := (canonical toISOString).
Local Abbreviation all_keys := (all_keys toISOString).
Local Abbreviation getStringToSign := (getStringToSign toISOString).

(** The string-to-sign of a request whose serializations are fixed pairs
    around the pairs of at most one list parameter: the fixed pairs that
    sort before the keys of the list, the pairs of the list sorted by key,
    and the fixed pairs that sort after them. *)
Lemma sign_around_list (r : Request) (F1 F2 L FA FB : Dictionary string)
    (K e : string) :
  flat_map serialize (parameters r) = app F1 (app L F2) ->
  NoDup (map fst (app F1 F2)) ->
  Forall (fun k => is_array_index k = false) (map fst (app F1 F2)) ->
  wf L ->
  (forall k, In k (map fst L) -> exists s, k = K ++ "." ++ s) ->
  (forall s, ~ In (K ++ "." ++ s) (map fst (app F1 F2))) ->
  (forall kv, In kv (app FA FB) <-> In kv (app F1 F2)) ->
  StronglySorted lex_lt (map fst (app FA FB)) ->
  (forall a s, In a (map fst FA) -> lex_lt a (K ++ "." ++ s)) ->
  (forall b s, In b (map fst FB) -> lex_lt (K ++ "." ++ s) b) ->
  getStringToSign r e
  = "POST" ++ String "010" "" ++ host (credentials r) ++ String "010" "" ++ e
    ++ String "010" ""
    ++ String.concat "&"
         (app (map pair_text FA)
              (app (map (pair_of L) (JS.Array_sort (map fst L)))
                   (map pair_text FB))).
Proof.
  intros E Hn Hi W Hf Hd Hp Hs HA HB.
  assert (Ek : all_keys (parameters r)
               = app (map fst F1) (app (map fst L) (map fst F2))).
  { rewrite <- all_keys_flat, E, !map_app. reflexivity. }
  assert (Nk : NoDup (all_keys (parameters r))).
  { rewrite Ek. eapply Permutation_NoDup; [apply Permutation_app_swap_app|].
    apply NoDup_app; [exact W|now rewrite <- map_app|].
    intros k Hk Hk'. destruct (Hf k Hk) as [s ->].
    apply (Hd s). now rewrite map_app. }
  assert (Ik : Forall (fun k => is_array_index k = false)
                      (all_keys (parameters r))).
  { rewrite Ek. rewrite map_app in Hi. apply Forall_app in Hi.
    destruct Hi as [Hi1 Hi2].
    apply Forall_app. split; [exact Hi1|].
    apply Forall_app. split; [|exact Hi2].
    apply Forall_forall. intros k Hk. destruct (Hf k Hk) as [s ->].
    apply dotted_not_index, list_key_dotted. }
  assert (Ec : canonical (parameters r) = app F1 (app L F2)).
  { now rewrite (canonical_fresh toISOString _ Nk Ik). }
  assert (Wc : wf (app F1 (app L F2))).
  { rewrite <- Ec. apply canonical_wf. }
  rewrite getStringToSign_eq, Ec.
  rewrite (keys_no_index (app F1 (app L F2)))
    by (rewrite <- Ec, canonical_fresh, all_keys_flat; assumption).
  rewrite map_app in Hs. apply StronglySorted_app_inv in Hs.
  destruct Hs as [SA [SB SAB]].
  assert (Es : JS.Array_sort (map fst (app F1 (app L F2)))
               = app (map fst FA)
                     (app (JS.Array_sort (map fst L)) (map fst FB))).
  { apply sorted_unique.
    - apply Array_sort_lt. exact Wc.
    - apply StronglySorted_app; [exact SA| |].
      + apply StronglySorted_app; [apply Array_sort_lt; exact W|exact SB|].
        intros a b Ha Hb. apply (proj1 (Array_sort_In _ _)) in Ha.
        destruct (Hf a Ha) as [s ->]. now apply HB.
      + intros a b Ha Hb. apply in_app_iff in Hb. destruct Hb as [Hb|Hb].
        * apply (proj1 (Array_sort_In _ _)) in Hb. destruct (Hf b Hb) as [s ->].
          now apply HA.
        * now apply SAB.
    - intros x. rewrite Array_sort_In, !map_app, !in_app_iff, Array_sort_In.
      assert (In x (map fst FA) \/ In x (map fst FB)
              <-> In x (map fst F1) \/ In x (map fst F2)) as Hx.
      { rewrite <- !in_app_iff, <- !map_app, !in_map_iff.
        split; intros [kv [Hk Hin]]; exists kv; (split; [exact Hk|]);
          now apply Hp. }
      tauto. }
  rewrite Es, !map_app.
  assert (Hfix : forall F, (forall kv, In kv F -> In kv (app F1 F2)) ->
            map (pair_of (app F1 (app L F2))) (map fst F) = map pair_text F).
  { intros F HF. rewrite map_map. apply map_ext_in. intros [k v] Hkv.
    apply pair_of_In; [exact Wc|].
    apply HF in Hkv. apply in_app_iff in Hkv. rewrite !in_app_iff. tauto. }
  rewrite (Hfix FA) by (intros kv Hkv; apply Hp, in_app_iff; now left).
  rewrite (Hfix FB) by (intros kv Hkv; apply Hp, in_app_iff; now right).
  rewrite (map_ext_in (pair_of (app F1 (app L F2))) (pair_of L));
    [reflexivity|].
  intros k Hk. apply (proj1 (Array_sort_In _ _)) in Hk. apply in_map_iff in Hk.
  destruct Hk as [[k' v] [<- Hkv]]. cbn [fst].
  rewrite (pair_of_In L k' v W Hkv). apply pair_of_In; [exact Wc|].
  rewrite !in_app_iff. tauto.
Qed.

(** X20.  The string [Orders.listOrderItems] signs: the eight pairs in
    ascending order of their keys. *)
Theorem listOrderItems_string_to_sign (mws : MWS)
    (options : ListOrderItemsRequest) (now : Moment) :
  let c := mws_credentials mws in
  let r := listOrderItems_request mws options now in
  getStringToSign r (endpoint r)
  = String.concat (String "010" "")
      ["POST"; host c; "/Orders/2013-09-01";
       String.concat "&"
         ["AWSAccessKeyId=" ++ urlEncode (awsAccountId c);
          "Action=ListOrderItems";
          "AmazonOrderId=" ++ urlEncode (AmazonOrderId options);
          "SellerId=" ++ urlEncode (sellerId c);
          "SignatureMethod=HmacSHA256";
          "SignatureVersion=2";
          "Timestamp=" ++ urlEncode (toISOString now);
          "Version=2013-09-01"]].
Proof.
  intros c r. rewrite getStringToSign_eq. reflexivity.
Qed.

(** X21.  The string [Orders.listOrders] signs: the pairs of the
    marketplace identifiers come between [CreatedAfter] and [SellerId],
    sorted by their keys as strings (so that [.10] comes before [.2]). *)
Theorem listOrders_string_to_sign (mws : MWS)
    (options : ListOrdersRequest Moment) (now : Moment) :
  let c := mws_credentials mws in
  let r := listOrders_request mws options now in
  let ids := serialize (ListParameter "MarketplaceId.Id"
                                      (MarketplaceId_Id options)) in
  getStringToSign r (endpoint r)
  = String.concat (String "010" "")
      ["POST"; host c; "/Orders/2013-09-01";
       String.concat "&"
         (app ["AWSAccessKeyId=" ++ urlEncode (awsAccountId c);
               "Action=ListOrders";
               "CreatedAfter="
               ++ urlEncode (toISOString (CreatedAfter options))]
              (app (map (pair_of ids) (JS.Array_sort (map fst ids)))
                   ["SellerId=" ++ urlEncode (sellerId c);
                    "SignatureMethod=HmacSHA256";
                    "SignatureVersion=2";
                    "Timestamp=" ++ urlEncode (toISOString now);
                    "Version=2013-09-01"]))].
Proof.
  intros c r ids.
  rewrite (sign_around_list r
             [("AWSAccessKeyId", awsAccountId c);
              ("SignatureMethod", "HmacSHA256");
              ("SignatureVersion", "2");
              ("Timestamp", toISOString now);
              ("Action", "ListOrders");
              ("SellerId", sellerId c);
              ("CreatedAfter", toISOString (CreatedAfter options))]
             [("Version", "2013-09-01")]
             ids
             [("AWSAccessKeyId", awsAccountId c);
              ("Action", "ListOrders");
              ("CreatedAfter", toISOString (CreatedAfter options))]
             [("SellerId", sellerId c);
              ("SignatureMethod", "HmacSHA256");
              ("SignatureVersion", "2");
              ("Timestamp", toISOString now);
              ("Version", "2013-09-01")]
             "MarketplaceId.Id").
  - reflexivity.
  - reflexivity.
  - cbn [map fst app]. concrete_NoDup.
  - cbn [map fst app]. repeat constructor.
  - apply serialize_wf.
  - intros k Hk.
    destruct (list_keys_form toISOString _ _ _ Hk) as [i ->]. eauto.
  - intros s. cbn [map fst app In String.append]. intuition discriminate.
  - intros kv. cbn [app In]. tauto.
  - cbn [map fst app]. sorted_concrete.
  - intros a s. cbn [map fst In].
    intros H; decompose [or] H; subst; try contradiction; lex_concrete.
  - intros b s. cbn [map fst In].
    intros H; decompose [or] H; subst; try contradiction; lex_concrete.
Qed.

(** X22.  The string [Reports.requestReport] signs, with the pairs of the
    optional properties at their places in the ascending order of the
    keys. *)
Theorem requestReport_string_to_sign (mws : MWS)
    (options : RequestReportRequest Moment) (now : Moment) :
  let c := mws_credentials mws in
  let r := requestReport_request mws options now in
  let ids :=
    match MarketplaceIdList options with
    | Some ids => serialize (ListParameter "MarketplaceIdList.Id" ids)
    | None => []
    end in
  getStringToSign r (endpoint r)
  = String.concat (String "010" "")
      ["POST"; host c; "/";
       String.concat "&"
         (app ["AWSAccessKeyId=" ++ urlEncode (awsAccountId c);
               "Action=RequestReport"]
         (app match EndDate options with
              | Some d => ["EndDate=" ++ urlEncode (toISOString d)]
              | None => []
              end
         (app (map (pair_of ids) (JS.Array_sort (map fst ids)))
         (app ["Merchant=" ++ urlEncode (sellerId c)]
         (app match ReportOptions options with
              | Some o => ["ReportOptions=" ++ urlEncode o]
              | None => []
              end
         (app ["ReportType=" ++ urlEncode (ReportType options);
               "SignatureMethod=HmacSHA256";
               "SignatureVersion=2"]
         (app match StartDate options with
              | Some d => ["StartDate=" ++ urlEncode (toISOString d)]
              | None => []
              end
              ["Timestamp=" ++ urlEncode (toISOString now);
               "Version=2009-01-01"])))))))].
Proof.
  intros c r ids.
  assert (Hc : credentials r = c /\ endpoint r = "/").
  { unfold r, requestReport_request.
    destruct (StartDate options), (EndDate options), (ReportOptions options),
      (MarketplaceIdList options); split; reflexivity. }
  rewrite (sign_around_list r
             (app [("AWSAccessKeyId", awsAccountId c);
                   ("SignatureMethod", "HmacSHA256");
                   ("SignatureVersion", "2");
                   ("Timestamp", toISOString now);
                   ("Action", "RequestReport");
                   ("Merchant", sellerId c);
                   ("Version", "2009-01-01");
                   ("ReportType", ReportType options)]
             (app match StartDate options with
                  | Some d => [("StartDate", toISOString d)]
                  | None => []
                  end
             (app match EndDate options with
                  | Some d => [("EndDate", toISOString d)]
                  | None => []
                  end
                  match ReportOptions options with
                  | Some o => [("ReportOptions", o)]
                  | None => []
                  end)))
             []
             ids
             (app [("AWSAccessKeyId", awsAccountId c);
                   ("Action", "RequestReport")]
                  match EndDate options with
                  | Some d => [("EndDate", toISOString d)]
                  | None => []
                  end)
             (app [("Merchant", sellerId c)]
             (app match ReportOptions options with
                  | Some o => [("ReportOptions", o)]
                  | None => []
                  end
             (app [("ReportType", ReportType options);
                   ("SignatureMethod", "HmacSHA256");
                   ("SignatureVersion", "2")]
             (app match StartDate options with
                  | Some d => [("StartDate", toISOString d)]
                  | None => []
                  end
                  [("Timestamp", toISOString now);
                   ("Version", "2009-01-01")]))))
             "MarketplaceIdList.Id").
  - destruct Hc as [-> ->].
    destruct (StartDate options), (EndDate options), (ReportOptions options);
      reflexivity.
  - unfold r, ids, requestReport_request.
    destruct (StartDate options), (EndDate options), (ReportOptions options),
      (MarketplaceIdList options); reflexivity.
  - destruct (StartDate options), (EndDate options), (ReportOptions options);
      cbn [map fst app]; concrete_NoDup.
  - destruct (StartDate options), (EndDate options), (ReportOptions options);
      cbn [map fst app]; repeat constructor.
  - unfold ids. destruct (MarketplaceIdList options);
      [apply serialize_wf|constructor].
  - intros k Hk. unfold ids in Hk.
    destruct (MarketplaceIdList options); [|destruct Hk].
    destruct (list_keys_form toISOString _ _ _ Hk) as [i ->]. eauto.
  - intros s.
    destruct (StartDate options), (EndDate options), (ReportOptions options);
      cbn [map fst app In String.append]; intuition discriminate.
  - intros kv.
    destruct (StartDate options), (EndDate options), (ReportOptions options);
      cbn [app In]; tauto.
  - destruct (StartDate options), (EndDate options), (ReportOptions options);
      cbn [map fst app]; sorted_concrete.
  - intros a s.
    destruct (EndDate options); cbn [map fst app In];
      intros H; decompose [or] H; subst; try contradiction; lex_concrete.
  - intros b s.
    destruct (StartDate options), (ReportOptions options);
      cbn [map fst app In];
      intros H; decompose [or] H; subst; try contradiction; lex_concrete.
Qed.

End CallerSigning.

(** The keys of the request of the end-to-end scenario. *)
Lemma orders_keys :
  all_keys Sample.iso (parameters Sample.orders)
  = ["AWSAccessKeyId"; "SignatureMethod"; "SignatureVersion"; "Timestamp";
     "Action"; "SellerId"; "MarketplaceId.Id.1"].
Proof. reflexivity. Qed.

(** The premises of X9 hold for the request of the end-to-end scenario. *)
Lemma query_string_in_insertion_order_witness :
  getQueryString Sample.iso Sample.orders
  = String.concat "&"
      (map pair_text
           (flat_map (serialize Sample.iso) (parameters Sample.orders))).
Proof.
  apply (query_string_in_insertion_order Sample.iso Sample.orders);
    rewrite orders_keys.
  - concrete_NoDup.
  - repeat constructor.
Defined.

(** The premise of X13 holds for the request of the end-to-end scenario. *)
Lemma sent_pairs_are_signed_pairs_witness :
  let r := Sample.orders in
  let input := canonical Sample.iso (parameters r) in
  url (snd (send Sample.iso Sample.mac r))
  = "https://" ++ host (credentials r) ++ endpoint r ++ "?"
    ++ String.concat "&"
         (app (map (pair_of input) (keys input))
              ["Signature="
               ++ urlEncode (getSignature Sample.iso Sample.mac r)])
  /\ getStringToSign Sample.iso r (endpoint r)
     = String.concat (String "010" "")
         ["POST"; host (credentials r); endpoint r;
          String.concat "&" (map (pair_of input) (JS.Array_sort (keys input)))]
  /\ Permutation (map (pair_of input) (keys input))
                 (map (pair_of input) (JS.Array_sort (keys input))).
Proof.
  apply (sent_pairs_are_signed_pairs Sample.iso Sample.mac Sample.orders).
  reflexivity.
Defined.

(** ** Examples *)

(** The end-to-end scenario of the specification. *)
Example orders_string_to_sign :
  getStringToSign Sample.iso Sample.orders (endpoint Sample.orders)
  = "POST" ++ String "010" "example.test"
    ++ String "010" "/Orders/2013-09-01"
    ++ String "010"
         ("AWSAccessKeyId=AKID&Action=ListOrders&MarketplaceId.Id.1=M1"
          ++ "&SellerId=S1&SignatureMethod=HmacSHA256&SignatureVersion=2"
          ++ "&Timestamp=2016-01-01T00%3A00%3A00.000Z").
Proof. reflexivity. Qed.

Example orders_error_response :
  on_response
    (fun _ =>
       (JNull,
        JObject [("ErrorResponse",
                  JObject [("Error", JObject [("Message", JString "Bad")])])]))
    JNull JUndefined
    (JString
       "<ErrorResponse><Error><Message>Bad</Message></Error></ErrorResponse>")
  = Normal [(JObject [("origin", JString "MWS"); ("message", JString "Bad");
                      ("metadata", JObject [("Message", JString "Bad")])],
             JUndefined)].
Proof. reflexivity. Qed.

Example base64_of_three_bytes :
  hexStrToBase64 "4d616e" = "TWFu"
  /\ hexStrToBase64 "4d61" = "TWE="
  /\ hexStrToBase64 "4d" = "TQ=="
  /\ base64_encode [x4d; x61; x6e] = "TWFu".
Proof. repeat split. Qed.

Example keys_enumeration_order :
  keys (set (set (set (set empty "b" "1") "10" "2") "a" "3") "9" "4")
  = ["9"; "10"; "b"; "a"].
Proof. reflexivity. Qed.

Example sort_is_lexicographic :
  JS.Array_sort ["b"; "a.10"; "a.9"; "B"; "a"] = ["B"; "a"; "a.10"; "a.9"; "b"].
Proof. reflexivity. Qed.

Example orders_signature_key :
  get (canonical Sample.iso (parameters Sample.orders)) "Signature" = None
  /\ get (canonical Sample.iso
            (parameters (fst (send Sample.iso Sample.mac Sample.orders))))
         "Signature"
     = Some (getSignature Sample.iso Sample.mac Sample.orders)
  /\ String.length (getSignature Sample.iso Sample.mac Sample.orders) = 44%nat.
Proof. repeat split; vm_compute; reflexivity. Qed.
